(** * The feature-flag evaluation engine (FeatureManager.ts) and its form

    A shallow embedding of the [FeatureManager] class: its data model, the
    segment matcher, the rollout bucketer and the evaluation orchestrator,
    and of the part of the application form that feeds it, followed by the
    properties of the evaluation.

    Conventions of the embedding.
    - JavaScript strings are Rocq strings, a character standing for a code
      unit below 256; the engine only compares, concatenates and takes the
      first character off them.
    - JavaScript numbers are rationals with the two infinities and NaN, a
      superset of the doubles.
    - A [string[]] reasoning array that the methods push to is threaded
      explicitly; a thrown exception ends the call and the array is lost.
    - The user's attribute object is a plain object, as the form builds it:
      a finite map of its own members, with the members of
      [Object.prototype] behind it. *)

From Stdlib Require Import ZArith QArith String Ascii List Lia.
From stdpp Require Import base gmap strings list pretty.

Close Scope Q_scope.
Open Scope Z_scope.

Set Warnings "-register-all".

(** ** Values of a parsed document *)

Inductive JsNumber : Type :=
| Finite (q : Q)
| PlusInfinity
| MinusInfinity
| NaN.

Definition integer (n : Z) : JsNumber := Finite (inject_Z n).
Coercion integer : Z >-> JsNumber.

(** What [JSON.parse] can produce, plus [undefined] for a member that is
    absent.  The entries of [JObj] are kept in the order in which
    [Object.entries] enumerates them. *)
Inductive JsVal : Type :=
| JUndefined
| JNull
| JBool (b : bool)
| JNum (n : JsNumber)
| JStr (s : string)
| JArr (elements : list JsVal)
| JObj (entries : list (string * JsVal)).

Inductive JsError : Type :=
| Error (message : string)
| TypeError.

Inductive Completion (A : Type) : Type :=
| Normal (a : A)
| Throw (e : JsError).
Arguments Normal {A} a.
Arguments Throw {A} e.

(** ** Strings and numbers *)

(** The one-character string holding the double quote. *)
Definition dq : string := String (ascii_of_nat 34) EmptyString.

Definition quoted (s : string) : string := dq +:+ s +:+ dq.

(** [s.startsWith("!")] and [s.slice(1)]. *)
Definition startsWithBang (s : string) : bool :=
  match s with
  | String c _ => Ascii.eqb c "!"%char
  | EmptyString => false
  end.

Definition slice1 (s : string) : string :=
  match s with
  | String _ rest => rest
  | EmptyString => EmptyString
  end.

(** The strings a [for ... of] loop over a string yields. *)
Fixpoint chars (s : string) : list string :=
  match s with
  | EmptyString => []
  | String c rest => String c EmptyString :: chars rest
  end.

Definition join (sep : string) (parts : list string) : string :=
  String.concat sep parts.

(** [hash < percentage] for an integer [hash]; a comparison with NaN is
    false. *)
Definition lessThan (hash : Z) (percentage : JsNumber) : bool :=
  match percentage with
  | Finite q => negb (Qle_bool q (inject_Z hash))
  | PlusInfinity => true
  | MinusInfinity | NaN => false
  end.

(** The member of its own that an object of a parsed document has under a
    name. *)
Fixpoint member (key : string) (entries : list (string * JsVal))
    : option JsVal :=
  match entries with
  | [] => None
  | (k, v) :: entries' =>
      if String.eqb k key then Some v else member key entries'
  end.

(** The results of [f] on the elements of a list, up to the first
    exception. *)
Definition traverse {A B} (f : A -> Completion B)
    : list A -> Completion (list B) :=
  fix go (l : list A) : Completion (list B) :=
    match l with
    | [] => Normal []
    | x :: l' =>
        match f x with
        | Throw err => Throw err
        | Normal y =>
            match go l' with
            | Throw err => Throw err
            | Normal ys => Normal (y :: ys)
            end
        end
    end.

Section Printing.

(** The text of a number that is not an integer of at most 2^53 in absolute
    value: the shortest digits that read back as the same double, written
    as a decimal fraction, padded with zeros, or in exponent notation, as
    the JavaScript engine chooses them. *)
Variable otherDigits : Q -> string.

(** [Number::toString].  An integer of at most 2^53 in absolute value is
    printed with its decimal digits. *)
Definition Number_toString (x : JsNumber) : string :=
  match x with
  | NaN => "NaN"
  | PlusInfinity => "Infinity"
  | MinusInfinity => "-Infinity"
  | Finite q =>
      let r := Qred q in
      if ((Qden r =? 1)%positive
          && (Z.abs (Qnum r) <=? 9007199254740992))%bool
      then pretty (Qnum r)
      else otherDigits q
  end.

(** Conversion of a value inside a template literal ([ToString]).  An
    object is converted by its [toString] method: [Array.prototype.toString]
    joins the elements, [Object.prototype.toString] gives
    [[object Object]], and an object with a member of its own named
    [toString], which a parsed document cannot make callable, has no
    conversion: the template literal throws a [TypeError]. *)
Fixpoint toString (v : JsVal) : Completion string :=
  match v with
  | JUndefined => Normal "undefined"
  | JNull => Normal "null"
  | JBool true => Normal "true"
  | JBool false => Normal "false"
  | JNum n => Normal (Number_toString n)
  | JStr s => Normal s
  | JArr elements =>
      match
        traverse
          (fun e => match e with
                    | JUndefined | JNull => Normal EmptyString
                    | _ => toString e
                    end) elements
      with
      | Throw err => Throw err
      | Normal parts => Normal (join "," parts)
      end
  | JObj entries =>
      match member "toString" entries with
      | Some _ => Throw TypeError
      | None => Normal "[object Object]"
      end
  end.

(** [JSON.stringify]: string escapes, then values.  [None] is the
    [undefined] that [JSON.stringify(undefined)] returns. *)
Definition hexDigit (n : N) : ascii :=
  match String.get (N.to_nat n) "0123456789abcdef" with
  | Some c => c
  | None => "0"%char
  end.

Definition escapeChar (c : ascii) : string :=
  let n := N_of_ascii c in
  if (n =? 34)%N then "\" +:+ dq
  else if (n =? 92)%N then "\\"
  else if (n =? 8)%N then "\b"
  else if (n =? 12)%N then "\f"
  else if (n =? 10)%N then "\n"
  else if (n =? 13)%N then "\r"
  else if (n =? 9)%N then "\t"
  else if (n <? 32)%N then
    "\u00" +:+ String (hexDigit (n / 16)) (String (hexDigit (n mod 16)) EmptyString)
  else String c EmptyString.

Fixpoint escape (s : string) : string :=
  match s with
  | EmptyString => EmptyString
  | String c rest => escapeChar c +:+ escape rest
  end.

Definition quoteJSON (s : string) : string := quoted (escape s).

Fixpoint stringify (v : JsVal) : option string :=
  match v with
  | JUndefined => None
  | JNull => Some "null"
  | JBool true => Some "true"
  | JBool false => Some "false"
  | JNum (Finite q) => Some (Number_toString (Finite q))
  | JNum _ => Some "null"
  | JStr s => Some (quoteJSON s)
  | JArr elements =>
      Some ("[" +:+ join "," (map (fun e => match stringify e with
                                            | Some s => s
                                            | None => "null"
                                            end) elements) +:+ "]")
  | JObj entries =>
      Some ("{" +:+ join ","
              ((fix members (l : list (string * JsVal)) : list string :=
                  match l with
                  | [] => []
                  | (k, e) :: l' =>
                      match stringify e with
                      | Some s => (quoteJSON k +:+ ":" +:+ s) :: members l'
                      | None => members l'
                      end
                  end) entries) +:+ "}")
  end.

(** [`${JSON.stringify(v)}`]. *)
Definition JSON_stringify (v : JsVal) : string :=
  match stringify v with
  | Some s => s
  | None => "undefined"
  end.

End Printing.

(** ** Data model *)

Module Rollout.
Record t : Type := mk { percentage : JsNumber; secondaryValue : JsVal }.
End Rollout.

(** [combo] is declared [{ [key: string]: string[] }]; the configuration is
    the result of [response.json()], so the member is kept as the document
    value it is at run time.  [comboOf] below builds the values that have
    the declared type. *)
Module Segment.
Record t : Type := mk {
  combo : JsVal;
  value : JsVal;
  rollout : option Rollout.t
}.
End Segment.

Module Feature.
Record t : Type := mk {
  id : string;
  description : string;
  type : string;
  value : JsVal;
  segments : list Segment.t;
  rollout : option Rollout.t
}.
End Feature.

Module FeatureGroup.
Record t : Type := mk {
  id : string;
  description : string;
  features : list Feature.t
}.
End FeatureGroup.

Module FeatureConfig.
Record t : Type := mk { groups : list FeatureGroup.t }.
End FeatureConfig.

(** The members of its own that the attribute object has. *)
Abbreviation UserAttributes := (gmap string string).

Module FeatureEvaluationResult.
Record t : Type := mk { value : JsVal; reasoning : list string }.
End FeatureEvaluationResult.

(** A combo of the declared type, as a list of keys with their tokens, and
    the document value it stands for. *)
Definition Combo : Type := list (string * list string).

Definition comboOf (c : Combo) : JsVal :=
  JObj (map (fun kv => (fst kv, JArr (map JStr (snd kv)))) c).

(** ** Methods that push to a reasoning array and may throw *)

Definition M (A : Type) : Type := list string -> Completion (A * list string).

Definition ret {A} (a : A) : M A := fun reasoning => Normal (a, reasoning).

Definition bind {A B} (m : M A) (f : A -> M B) : M B :=
  fun reasoning =>
    match m reasoning with
    | Normal (a, reasoning') => f a reasoning'
    | Throw e => Throw e
    end.

Definition push (entry : string) : M unit :=
  fun reasoning => Normal (tt, (reasoning ++ [entry])%list).

Definition throw {A} (e : JsError) : M A := fun _ => Throw e.

(** A computation that does not touch the reasoning array. *)
Definition lift {A} (c : Completion A) : M A :=
  fun reasoning =>
    match c with
    | Normal a => Normal (a, reasoning)
    | Throw e => Throw e
    end.

Notation "x <- c1 ;; c2" := (bind c1 (fun x => c2))
  (at level 100, c1 at next level, right associativity).
Notation "c1 ;;; c2" := (bind c1 (fun _ => c2))
  (at level 100, right associativity).

(** ** Segment matcher *)

(** [Object.entries(combo)]. *)
Fixpoint indexed {A} (i : nat) (l : list A) : list (string * A) :=
  match l with
  | [] => []
  | x :: l' => (pretty i, x) :: indexed (S i) l'
  end.

Definition Object_entries (o : JsVal) : Completion (list (string * JsVal)) :=
  match o with
  | JUndefined | JNull => Throw TypeError
  | JBool _ | JNum _ => Normal []
  | JStr s => Normal (indexed 0 (map JStr (chars s)))
  | JArr elements => Normal (indexed 0 elements)
  | JObj entries => Normal entries
  end.

(** The values that [for (const value of values)] visits. *)
Definition iterate (values : JsVal) : Completion (list JsVal) :=
  match values with
  | JArr elements => Normal elements
  | JStr s => Normal (map JStr (chars s))
  | _ => Throw TypeError
  end.

(** The names of the members of [Object.prototype], which every plain
    object inherits. *)
Definition ObjectPrototype : list string :=
  [ "constructor"; "hasOwnProperty"; "isPrototypeOf"; "propertyIsEnumerable";
    "toLocaleString"; "toString"; "valueOf"; "__proto__";
    "__defineGetter__"; "__defineSetter__"; "__lookupGetter__";
    "__lookupSetter__" ].

Definition inheritedName (key : string) : bool :=
  existsb (String.eqb key) ObjectPrototype.

(** What [userAttributes[attributeKey]] gives when it is not [undefined]:
    the string that the object has of its own under the key, or else the
    member of [Object.prototype] of that name, a function or an object. *)
Inductive UserValue : Type :=
| Text (s : string)
| Inherited.

Definition getAttribute (userAttributes : UserAttributes)
    (attributeKey : string) : option UserValue :=
  match userAttributes !! attributeKey with
  | Some s => Some (Text s)
  | None => if inheritedName attributeKey then Some Inherited else None
  end.

(** [userValue === value] for a string [value]. *)
Definition strictEquals (userValue : UserValue) (value : string) : bool :=
  match userValue with
  | Text s => String.eqb s value
  | Inherited => false
  end.

(** How the inner loop of [matchSegment] is left: by [return false], or by
    reaching its end with the current [matchFound]. *)
Inductive LoopExit : Type :=
| Returned (result : bool)
| Finished (matchFound : bool).

Fixpoint matchValues (attributeKey : string) (userValue : UserValue)
    (values : list JsVal) (matchFound : bool) : M LoopExit :=
  match values with
  | [] => ret (Finished matchFound)
  | JStr value :: values' =>
      if startsWithBang value then
        let negatedValue := slice1 value in
        match userValue with
        | Text text =>
            if negb (String.eqb text negatedValue) then
              matchValues attributeKey userValue values' true
            else
              push ("User attribute " +:+ quoted attributeKey +:+ " value "
                    +:+ quoted text +:+ " matches negated value "
                    +:+ quoted negatedValue +:+ ". Segment does not match.") ;;;
              ret (Returned false)
        | Inherited =>
            (* an inherited member is no string: [userValue !== negatedValue] *)
            matchValues attributeKey userValue values' true
        end
      else if strictEquals userValue value then
        matchValues attributeKey userValue values' true
      else
        matchValues attributeKey userValue values' matchFound
  | _ :: _ => throw TypeError
  end.

Fixpoint matchEntries (entries : list (string * JsVal))
    (userAttributes : UserAttributes) : M bool :=
  match entries with
  | [] => ret true
  | (attributeKey, values) :: entries' =>
      match getAttribute userAttributes attributeKey with
      | None | Some (Text EmptyString) =>
          (* [!userValue]: [undefined] and the empty string *)
          push ("User attribute " +:+ quoted attributeKey
                +:+ " not present. Segment does not match.") ;;;
          ret false
      | Some userValue =>
          match iterate values with
          | Throw e => throw e
          | Normal tokens =>
              exit <- matchValues attributeKey userValue tokens false ;;
              match exit with
              | Returned result => ret result
              | Finished true => matchEntries entries' userAttributes
              | Finished false =>
                  push ("No matching value for attribute "
                        +:+ quoted attributeKey
                        +:+ ". Segment does not match.") ;;;
                  ret false
              end
          end
      end
  end.

Definition matchSegment (combo : JsVal) (userAttributes : UserAttributes)
    : M bool :=
  match Object_entries combo with
  | Throw e => throw e
  | Normal entries => matchEntries entries userAttributes
  end.

(** ** Rollout bucketer and evaluation orchestrator *)

Module FeatureManager.
Record t : Type := mk {
  featureMap : gmap string (Feature.t * string);
  userId : string;
  userAttributes : UserAttributes
}.
End FeatureManager.

(** The constructor flattens the features of all groups into the map, each
    with the id of its group; [Map.set] replaces an entry of the same key. *)
Definition constructor (config : FeatureConfig.t) (userId : string)
    (userAttributes : UserAttributes) : FeatureManager.t :=
  {| FeatureManager.userId := userId;
     FeatureManager.userAttributes := userAttributes;
     FeatureManager.featureMap :=
       fold_left
         (fun featureMap group =>
            fold_left
              (fun featureMap feature =>
                 <[Feature.id feature := (feature, FeatureGroup.id group)]>
                   featureMap)
              (FeatureGroup.features group) featureMap)
         (FeatureConfig.groups config) ∅ |}.

Definition setUserId (this : FeatureManager.t) (userId : string)
    : FeatureManager.t :=
  {| FeatureManager.userId := userId;
     FeatureManager.userAttributes := FeatureManager.userAttributes this;
     FeatureManager.featureMap := FeatureManager.featureMap this |}.

Section Engine.

(** [murmurhash.v3] of the imported package, called with one argument. *)
Variable murmurhash_v3 : string -> Z.

Variable otherDigits : Q -> string.

(** [`${v}`] for a value of the configuration. *)
Definition print (v : JsVal) : M string := lift (toString otherDigits v).

Definition hashUser (userId groupId : string) : Z :=
  let str := userId +:+ "-" +:+ groupId in
  let hash := murmurhash_v3 str in
  Z.rem (Z.abs hash) 100.

Definition evaluateRollout (userId groupId : string) (rollout : Rollout.t)
    (currentValue : JsVal) : M JsVal :=
  let hash := hashUser userId groupId in
  let percentage := Rollout.percentage rollout in
  push ("Evaluating rollout: Hash(" +:+ userId +:+ ", " +:+ groupId
        +:+ ") = " +:+ pretty hash +:+ ", Rollout percentage = "
        +:+ Number_toString otherDigits percentage +:+ "%") ;;;
  if lessThan hash percentage then
    printed <- print currentValue ;;
    push ("User falls within rollout percentage. Using value: "
          +:+ printed) ;;;
    ret currentValue
  else
    printed <- print (Rollout.secondaryValue rollout) ;;
    push ("User does not fall within rollout percentage. Using secondary value: "
          +:+ printed) ;;;
    ret (Rollout.secondaryValue rollout).

(** The body of [if (this.matchSegment(...))] in the loop over the
    segments, up to its [return]. *)
Definition segmentMatched (this : FeatureManager.t) (groupId : string)
    (segment : Segment.t) : M JsVal :=
  push ("Segment matched: "
        +:+ JSON_stringify otherDigits (Segment.combo segment)) ;;;
  finalValue <-
    match Segment.rollout segment with
    | Some rollout =>
        let beforeRolloutValue := Segment.value segment in
        finalValue <- evaluateRollout (FeatureManager.userId this) groupId
                        rollout (Segment.value segment) ;;
        before <- print beforeRolloutValue ;;
        others <- print (Rollout.secondaryValue rollout) ;;
        push ("Segment-level rollout applied: "
              +:+ Number_toString otherDigits (Rollout.percentage rollout)
              +:+ "% users get " +:+ before +:+ ", others get " +:+ others) ;;;
        ret finalValue
    | None =>
        push "No segment-level rollout applied." ;;;
        ret (Segment.value segment)
    end ;;
  printed <- print finalValue ;;
  push ("Final value from segment: " +:+ printed) ;;;
  ret finalValue.

(** The loop over [feature.segments]: [Some] value when the loop body
    returned it, [None] when the loop ran to its end. *)
Fixpoint evaluateSegments (this : FeatureManager.t) (groupId : string)
    (segments : list Segment.t) : M (option JsVal) :=
  match segments with
  | [] => ret None
  | segment :: segments' =>
      matched <- matchSegment (Segment.combo segment)
                   (FeatureManager.userAttributes this) ;;
      if (matched : bool) then
        finalValue <- segmentMatched this groupId segment ;;
        ret (Some finalValue)
      else
        push ("Segment did not match: "
              +:+ JSON_stringify otherDigits (Segment.combo segment)) ;;;
        evaluateSegments this groupId segments'
  end.

(** The code after the loop. *)
Definition evaluateDefault (this : FeatureManager.t) (groupId : string)
    (feature : Feature.t) : M JsVal :=
  push "No segments matched. Using default value." ;;;
  finalValue <-
    match Feature.rollout feature with
    | Some rollout =>
        let beforeRolloutValue := Feature.value feature in
        finalValue <- evaluateRollout (FeatureManager.userId this) groupId
                        rollout (Feature.value feature) ;;
        before <- print beforeRolloutValue ;;
        others <- print (Rollout.secondaryValue rollout) ;;
        push ("Feature-level rollout applied: "
              +:+ Number_toString otherDigits (Rollout.percentage rollout)
              +:+ "% users get " +:+ before +:+ ", others get " +:+ others) ;;;
        ret finalValue
    | None =>
        push "No feature-level rollout applied." ;;;
        ret (Feature.value feature)
    end ;;
  printed <- print finalValue ;;
  push ("Final value: " +:+ printed) ;;;
  ret finalValue.

Definition evaluateFeature (this : FeatureManager.t) (groupId : string)
    (feature : Feature.t) : M JsVal :=
  returned <- evaluateSegments this groupId (Feature.segments feature) ;;
  match returned with
  | Some finalValue => ret finalValue
  | None => evaluateDefault this groupId feature
  end.

Definition getFeatureValue (this : FeatureManager.t) (featureId : string)
    : Completion FeatureEvaluationResult.t :=
  match FeatureManager.featureMap this !! featureId with
  | None =>
      Throw (Error ("Feature with id " +:+ quoted featureId
                    +:+ " not found."))
  | Some (feature, groupId) =>
      match evaluateFeature this groupId feature [] with
      | Normal (finalValue, reasoning) =>
          Normal {| FeatureEvaluationResult.value := finalValue;
                    FeatureEvaluationResult.reasoning := reasoning |}
      | Throw e => Throw e
      end
  end.

End Engine.

(** ** The hash of the imported package *)

(** Arithmetic on 32-bit words, kept in [Z]. *)
Definition mask32 (x : Z) : Z := Z.land x 0xffffffff.

Definition rotl32 (x r : Z) : Z :=
  mask32 (Z.lor (Z.shiftl x r) (Z.shiftr x (32 - r))).

Definition mul32 (x y : Z) : Z := mask32 (x * y).

Definition mixK1 (k1 : Z) : Z :=
  mul32 (rotl32 (mul32 k1 0xcc9e2d51) 15) 0x1b873593.

Fixpoint murmurBody (key : list Z) (h1 : Z) : Z :=
  match key with
  | b0 :: b1 :: b2 :: b3 :: rest =>
      let k1 := Z.lor (Z.lor b0 (Z.shiftl b1 8))
                      (Z.lor (Z.shiftl b2 16) (Z.shiftl b3 24)) in
      let h1 := Z.lxor h1 (mixK1 k1) in
      let h1 := rotl32 h1 13 in
      murmurBody rest (mask32 (h1 * 5 + 0xe6546b64))
  | [b0; b1; b2] =>
      Z.lxor h1 (mixK1 (Z.lor (Z.lor b0 (Z.shiftl b1 8)) (Z.shiftl b2 16)))
  | [b0; b1] => Z.lxor h1 (mixK1 (Z.lor b0 (Z.shiftl b1 8)))
  | [b0] => Z.lxor h1 (mixK1 b0)
  | [] => h1
  end.

Definition fmix32 (h : Z) : Z :=
  let h := Z.lxor h (Z.shiftr h 16) in
  let h := mul32 h 0x85ebca6b in
  let h := Z.lxor h (Z.shiftr h 13) in
  let h := mul32 h 0xc2b2ae35 in
  Z.lxor h (Z.shiftr h 16).

Definition bytesOf (s : string) : list Z :=
  map (fun c => Z.of_N (N_of_ascii c)) (list_ascii_of_string s).

(** Modelled from the spec: [murmurhash.v3] belongs to the [murmurhash]
    package, which is not part of the sources; the description names it as
    the 32-bit MurmurHash3.  [murmur3] is that function on the bytes of the
    key with the seed left out (zero).  The properties below are proved for
    every hash function; [murmur3] serves to run the engine on examples. *)
Definition murmur3 (key : string) : Z :=
  let bytes := bytesOf key in
  fmix32 (Z.lxor (murmurBody bytes 0) (Z.of_nat (length bytes))).

(** ** The application form (App.tsx) *)

(** The white space that [String.prototype.trim] removes, among the code
    units below 256: tab, line feed, vertical tab, form feed, carriage
    return, space and no-break space. *)
Definition isWhiteSpace (c : ascii) : bool :=
  let n := N_of_ascii c in
  ((n =? 9) || (n =? 10) || (n =? 11) || (n =? 12) || (n =? 13)
   || (n =? 32) || (n =? 160))%N.

Fixpoint trimStart (s : string) : string :=
  match s with
  | EmptyString => EmptyString
  | String c rest => if isWhiteSpace c then trimStart rest else s
  end.

Fixpoint trimEnd (s : string) : string :=
  match s with
  | EmptyString => EmptyString
  | String c rest =>
      match trimEnd rest with
      | EmptyString =>
          if isWhiteSpace c then EmptyString else String c EmptyString
      | kept => String c kept
      end
  end.

Definition trim (s : string) : string := trimEnd (trimStart s).

(** [s.split(separator)] for a separator of one character. *)
Fixpoint split (separator : ascii) (s : string) : list string :=
  match s with
  | EmptyString => [EmptyString]
  | String c rest =>
      if Ascii.eqb c separator then EmptyString :: split separator rest
      else
        match split separator rest with
        | first :: parts => String c first :: parts
        | [] => [String c EmptyString]
        end
  end.

Definition equalsSign : ascii := "="%char.
Definition lineFeed : ascii := ascii_of_nat 10.

(** [userAttributes[key] = value] on the plain object of the effect: the
    assignment makes or replaces a member of the object, except under the
    name [__proto__], where it calls the setter of [Object.prototype],
    which does nothing for a string. *)
Definition assign (userAttributes : UserAttributes) (key value : string)
    : UserAttributes :=
  if String.eqb key "__proto__" then userAttributes
  else <[key := value]> userAttributes.

(** The body of [lines.forEach] in the effect that parses the attributes:
    [key] and [value] are the first two trimmed parts of the line, and the
    attribute is set when neither is [undefined] or empty. *)
Definition parseLine (userAttributes : UserAttributes) (line : string)
    : UserAttributes :=
  match map trim (split equalsSign line) with
  | (String _ _ as key) :: (String _ _ as value) :: _ =>
      assign userAttributes key value
  | _ => userAttributes
  end.

Definition parseAttributes (attributesInput : string) : UserAttributes :=
  let lines := split lineFeed attributesInput in
  fold_left parseLine lines ∅.

(** The ids offered for selection once a platform is loaded:
    [groups.flatMap(group => group.features.map(feature => feature.id))]. *)
Definition featuresList (featureConfig : FeatureConfig.t) : list string :=
  flat_map (fun group => map Feature.id (FeatureGroup.features group))
    (FeatureConfig.groups featureConfig).

(** The state of the form that [handleEvaluate] reads and sets. *)
Module App.
Record t : Type := mk {
  userId : string;
  platform : string;
  platformData : option FeatureConfig.t;
  featureId : string;
  parsedUserAttributes : UserAttributes;
  featureValue : option FeatureEvaluationResult.t;
  error : option string
}.
End App.

Definition setError (state : App.t) (error : option string) : App.t :=
  {| App.userId := App.userId state; App.platform := App.platform state;
     App.platformData := App.platformData state;
     App.featureId := App.featureId state;
     App.parsedUserAttributes := App.parsedUserAttributes state;
     App.featureValue := App.featureValue state;
     App.error := error |}.

Definition setFeatureValue (state : App.t)
    (featureValue : option FeatureEvaluationResult.t) : App.t :=
  {| App.userId := App.userId state; App.platform := App.platform state;
     App.platformData := App.platformData state;
     App.featureId := App.featureId state;
     App.parsedUserAttributes := App.parsedUserAttributes state;
     App.featureValue := featureValue;
     App.error := App.error state |}.

Section Form.

Variable murmurhash_v3 : string -> Z.
Variable otherDigits : Q -> string.

(** The text of the [TypeError] with which the evaluation of a feature
    ends, when it ends with one; the text is the JavaScript engine's. *)
Variable typeErrorMessage : FeatureManager.t -> string -> string.

(** [(err as Error).message] for the error caught in [handleEvaluate]. *)
Definition messageOf (featureManager : FeatureManager.t)
    (featureId : string) (err : JsError) : string :=
  match err with
  | Error message => message
  | TypeError => typeErrorMessage featureManager featureId
  end.

Definition handleEvaluate (state : App.t) : App.t :=
  let state := setError state None in
  let state := setFeatureValue state None in
  match App.platform state with
  | EmptyString => setError state (Some "Please select a platform.")
  | _ =>
      match App.featureId state with
      | EmptyString => setError state (Some "Please select a feature.")
      | _ =>
          match App.platformData state with
          | None => setError state (Some "Platform data is not available.")
          | Some platformData =>
              let featureManager :=
                constructor platformData (App.userId state)
                  (App.parsedUserAttributes state) in
              match getFeatureValue murmurhash_v3 otherDigits featureManager
                      (App.featureId state) with
              | Normal result => setFeatureValue state (Some result)
              | Throw err =>
                  let state :=
                    setError state
                      (Some (messageOf featureManager (App.featureId state)
                               err)) in
                  setFeatureValue state None
              end
          end
      end
  end.

End Form.

(** ** Notions used in the statements *)

(** The call [m] started on the array [reasoning] behaves as on an empty
    array, with what it pushed added to [reasoning]. *)
Definition extend {A} (reasoning : list string)
    (c : Completion (A * list string)) : Completion (A * list string) :=
  match c with
  | Normal (a, pushed) => Normal (a, (reasoning ++ pushed)%list)
  | Throw e => Throw e
  end.

Definition framed {A} (m : M A) : Prop :=
  forall reasoning, m reasoning = extend reasoning (m []).

(** The segment matches the user, or is turned down without an exception. *)
Definition accepts (userAttributes : UserAttributes) (segment : Segment.t)
    : Prop :=
  exists pushed,
    matchSegment (Segment.combo segment) userAttributes [] = Normal (true, pushed).

Definition declines (userAttributes : UserAttributes) (segment : Segment.t)
    : Prop :=
  exists pushed,
    matchSegment (Segment.combo segment) userAttributes [] = Normal (false, pushed).

(** The combo has the type the interface declares. *)
Definition declared (segment : Segment.t) : Prop :=
  exists c : Combo, Segment.combo segment = comboOf c.

(** A value over which [for ... of] cannot run. *)
Definition notIterable (v : JsVal) : Prop :=
  match v with
  | JArr _ | JStr _ => False
  | _ => True
  end.

(** The value has a conversion to a string, whatever the digits of the
    numbers in it. *)
Definition printable (v : JsVal) : Prop :=
  forall otherDigits, exists printed, toString otherDigits v = Normal printed.

Definition printableRollout (rollout : option Rollout.t) : Prop :=
  match rollout with
  | Some r => printable (Rollout.secondaryValue r)
  | None => True
  end.

(** The secondary value of a rollout that may be absent. *)
Definition secondaryValues (rollout : option Rollout.t) : list JsVal :=
  match rollout with
  | Some r => [Rollout.secondaryValue r]
  | None => []
  end.

(** The template literals print the value. *)
Definition prints (otherDigits : Q -> string) (v : JsVal) : bool :=
  match toString otherDigits v with
  | Normal _ => true
  | Throw _ => false
  end.

(** The value a rollout leaves, given the bucket of the user. *)
Definition rolloutChoice (bucket : Z) (rollout : option Rollout.t)
    (currentValue : JsVal) : JsVal :=
  match rollout with
  | Some r =>
      if lessThan bucket (Rollout.percentage r) then currentValue
      else Rollout.secondaryValue r
  | None => currentValue
  end.

(** How the evaluation of a matched segment, or of the default, ends for a
    user of the given bucket: with the value the rollout leaves, when the
    value and the secondary value of the rollout can be printed, and with
    a [TypeError] otherwise. *)
Definition valueOutcome (otherDigits : Q -> string) (bucket : Z)
    (rollout : option Rollout.t) (currentValue : JsVal) : Completion JsVal :=
  if forallb (prints otherDigits) (currentValue :: secondaryValues rollout)
  then Normal (rolloutChoice bucket rollout currentValue)
  else Throw TypeError.

(** [x <= y] on numbers; a comparison with NaN is false. *)
Definition atMost (x y : JsNumber) : Prop :=
  match x, y with
  | Finite p, Finite q => (p <= q)%Q
  | MinusInfinity, (Finite _ | MinusInfinity | PlusInfinity) => True
  | Finite _, PlusInfinity => True
  | PlusInfinity, PlusInfinity => True
  | _, _ => False
  end.

(** The features of a configuration in document order, each with the id of
    its group. *)
Definition featureEntries (config : FeatureConfig.t)
    : list (Feature.t * string) :=
  flat_map
    (fun group =>
       map (fun feature => (feature, FeatureGroup.id group))
         (FeatureGroup.features group))
    (FeatureConfig.groups config).

(** [Map.set] of the entries, one after the other, on a feature map. *)
Definition setAll (entries : list (Feature.t * string))
    (featureMap : gmap string (Feature.t * string))
    : gmap string (Feature.t * string) :=
  fold_left (fun featureMap entry => <[Feature.id (fst entry) := entry]> featureMap)
    entries featureMap.

Definition notPresent (attributeKey : string) : string :=
  "User attribute " +:+ quoted attributeKey
  +:+ " not present. Segment does not match.".

(** What [matchSegment] decides for a combo of the declared type, said
    without the loops: a token [!v] is violated by the user value [v]; a key
    holds when no token is violated and some token is a negation or is the
    user value; a combo holds when the attribute object gives a value other
    than the empty string for each key and each key holds.  An inherited
    member is a value that no token equals. *)
Definition tokenViolated (userValue : UserValue) (token : string) : bool :=
  startsWithBang token && strictEquals userValue (slice1 token).

Definition tokenHit (userValue : UserValue) (token : string) : bool :=
  startsWithBang token || strictEquals userValue token.

Definition keyHolds (userValue : UserValue) (tokens : list string) : bool :=
  negb (existsb (tokenViolated userValue) tokens)
  && existsb (tokenHit userValue) tokens.

Definition comboHolds (c : Combo) (userAttributes : UserAttributes) : bool :=
  forallb
    (fun kv =>
       match getAttribute userAttributes (fst kv) with
       | None | Some (Text EmptyString) => false
       | Some userValue => keyHolds userValue (snd kv)
       end) c.

(** The values a configuration gives a feature: its default, the values of
    its segments, and the secondary values of the rollouts. *)
Definition configuredValues (feature : Feature.t) : list JsVal :=
  (Feature.value feature :: secondaryValues (Feature.rollout feature))
  ++ flat_map
       (fun segment =>
          Segment.value segment :: secondaryValues (Segment.rollout segment))
       (Feature.segments feature).

(** The feature has no rollout, neither its own nor on a segment. *)
Definition withoutRollout (feature : Feature.t) : Prop :=
  Feature.rollout feature = None
  /\ Forall (fun segment => Segment.rollout segment = None)
       (Feature.segments feature).

(** Two calls end alike: with the same returned value, whatever they
    pushed, or with the same exception. *)
Definition sameOutcome {A} (c c' : Completion (A * list string)) : Prop :=
  match c, c' with
  | Normal (a, _), Normal (a', _) => a = a'
  | Throw e, Throw e' => e = e'
  | _, _ => False
  end.

(** The combo [c'] has the keys of [c] in some order, each with the tokens
    it has in [c] in some order. *)
Definition reordered (c c' : Combo) : Prop :=
  exists c'' : Combo,
    Forall2 (fun kv kv' => fst kv = fst kv' /\ Permutation (snd kv) (snd kv'))
      c c''
    /\ Permutation c'' c'.

(** The character occurs in the string. *)
Definition occurs (c : ascii) (s : string) : Prop :=
  In c (list_ascii_of_string s).

(** The text the form asks for, one attribute per line in the format
    [key=value], for attributes that such a text can carry: keys and values
    that are not empty, have no white space at their ends, and hold no
    equals sign and no line feed. *)
Definition attributeLine (kv : string * string) : string :=
  fst kv +:+ String equalsSign (snd kv).

Definition attributesText (attributes : list (string * string)) : string :=
  String.concat (String lineFeed EmptyString) (map attributeLine attributes).

Definition plainWord (s : string) : Prop :=
  s <> EmptyString /\ trim s = s
  /\ ~ occurs equalsSign s /\ ~ occurs lineFeed s.

(** ** Running examples *)

(** The examples print small integers only. *)
Definition noOtherDigits : Q -> string := fun _ => EmptyString.

Definition regionCombo : JsVal := comboOf [("region", ["US"; "!EU"])].

Definition exampleSegment : Segment.t :=
  {| Segment.combo := comboOf [("plan", ["pro"])];
     Segment.value := JBool true;
     Segment.rollout :=
       Some {| Rollout.percentage := 50;
               Rollout.secondaryValue := JBool false |} |}.

Definition exampleFeature : Feature.t :=
  {| Feature.id := "f1"; Feature.description := ""; Feature.type := "boolean";
     Feature.value := JBool false;
     Feature.segments := [exampleSegment];
     Feature.rollout := None |}.

(** A segment that asks for nothing, in front of [exampleSegment]. *)
Definition openSegment : Segment.t :=
  {| Segment.combo := JObj []; Segment.value := JStr "on";
     Segment.rollout := None |}.

Definition openFeature : Feature.t :=
  {| Feature.id := "f3"; Feature.description := ""; Feature.type := "string";
     Feature.value := JStr "off";
     Feature.segments := [openSegment; exampleSegment];
     Feature.rollout := None |}.

Definition openManager : FeatureManager.t :=
  constructor
    {| FeatureConfig.groups :=
         [ {| FeatureGroup.id := "g2"; FeatureGroup.description := "";
              FeatureGroup.features := [openFeature] |} ] |}
    "alice" ∅.

Definition plainFeature : Feature.t :=
  {| Feature.id := "f2"; Feature.description := ""; Feature.type := "string";
     Feature.value := JStr "off"; Feature.segments := [];
     Feature.rollout := None |}.

(** A second feature of the id [f1], in a later group. *)
Definition laterFeature : Feature.t :=
  {| Feature.id := "f1"; Feature.description := ""; Feature.type := "string";
     Feature.value := JStr "later"; Feature.segments := [];
     Feature.rollout := None |}.

Definition duplicateConfig : FeatureConfig.t :=
  {| FeatureConfig.groups :=
       [ {| FeatureGroup.id := "g1"; FeatureGroup.description := "";
            FeatureGroup.features := [exampleFeature; plainFeature] |};
         {| FeatureGroup.id := "g2"; FeatureGroup.description := "";
            FeatureGroup.features := [laterFeature] |} ] |}.

(** A feature whose only segment has no [combo] member. *)
Definition brokenFeature : Feature.t :=
  {| Feature.id := "f4"; Feature.description := ""; Feature.type := "string";
     Feature.value := JStr "off";
     Feature.segments :=
       [ {| Segment.combo := JUndefined; Segment.value := JStr "on";
            Segment.rollout := None |} ];
     Feature.rollout := None |}.

Definition brokenManager : FeatureManager.t :=
  constructor
    {| FeatureConfig.groups :=
         [ {| FeatureGroup.id := "g1"; FeatureGroup.description := "";
              FeatureGroup.features := [brokenFeature] |} ] |}
    "alice" {[ "region" := "CA" ]}.

(** A feature whose first segment has no combo and whose second segment
    matches every user. *)
Definition shadowedFeature : Feature.t :=
  {| Feature.id := "f7"; Feature.description := ""; Feature.type := "string";
     Feature.value := JStr "off";
     Feature.segments :=
       [ {| Segment.combo := JUndefined; Segment.value := JStr "broken";
            Segment.rollout := None |};
         openSegment ];
     Feature.rollout := None |}.

Definition shadowedManager : FeatureManager.t :=
  constructor
    {| FeatureConfig.groups :=
         [ {| FeatureGroup.id := "g1"; FeatureGroup.description := "";
              FeatureGroup.features := [shadowedFeature] |} ] |}
    "alice" ∅.

Definition exampleConfig : FeatureConfig.t :=
  {| FeatureConfig.groups :=
       [ {| FeatureGroup.id := "g1"; FeatureGroup.description := "";
            FeatureGroup.features := [exampleFeature; plainFeature] |} ] |}.

(** A feature for users of the plan [pro] outside the region [EU]: the
    first segment turns such a user down, the second and the third both
    match, and a segment without combo stands behind them. *)
Definition planSegment (plan value : string) : Segment.t :=
  {| Segment.combo := comboOf [("plan", [plan])];
     Segment.value := JStr value; Segment.rollout := None |}.

Definition tieredFeature : Feature.t :=
  {| Feature.id := "f5"; Feature.description := ""; Feature.type := "string";
     Feature.value := JStr "none";
     Feature.segments :=
       [ planSegment "free" "basic";
         {| Segment.combo := comboOf [("plan", ["pro"]); ("region", ["!EU"])];
            Segment.value := JStr "full";
            Segment.rollout :=
              Some {| Rollout.percentage := 50;
                      Rollout.secondaryValue := JStr "half" |} |};
         planSegment "pro" "fallback";
         {| Segment.combo := JUndefined; Segment.value := JStr "broken";
            Segment.rollout := None |} ];
     Feature.rollout :=
       Some {| Rollout.percentage := 10;
               Rollout.secondaryValue := JStr "never" |} |}.

Definition tieredManager : FeatureManager.t :=
  constructor
    {| FeatureConfig.groups :=
         [ {| FeatureGroup.id := "g1"; FeatureGroup.description := "";
              FeatureGroup.features := [tieredFeature] |} ] |}
    "alice" (<[ "plan" := "pro" ]> {[ "region" := "CA" ]}).

(** A value that no template literal can print. *)
Definition unprintableValue : JsVal := JObj [("toString", JNum 1)].

(** * Properties *)

(** ** The engine on the examples *)

(** [murmur3] on the usual test keys of MurmurHash3 with seed zero. *)
Example murmur3_test_keys :
  murmur3 EmptyString = 0
  /\ murmur3 "test" = 0xba6bd213
  /\ murmur3 "Hello, world!" = 0xc0363e43
  /\ murmur3 "The quick brown fox jumps over the lazy dog" = 0x2e4ff723.
Proof. repeat split; vm_compute; reflexivity. Qed.

(** The user [alice] with the plan [pro]: the segment matches, the bucket
    of [alice-g1] is 87 and the rollout of 50 percent gives the secondary
    value. *)
Example getFeatureValue_alice :
  getFeatureValue murmur3 noOtherDigits
    (constructor exampleConfig "alice" {[ "plan" := "pro" ]}) "f1"
  = Normal
      {| FeatureEvaluationResult.value := JBool false;
         FeatureEvaluationResult.reasoning :=
           [ "Segment matched: {" +:+ quoted "plan" +:+ ":["
               +:+ quoted "pro" +:+ "]}";
             "Evaluating rollout: Hash(alice, g1) = 87, Rollout percentage = 50%";
             "User does not fall within rollout percentage. Using secondary value: false";
             "Segment-level rollout applied: 50% users get true, others get false";
             "Final value from segment: false" ] |}.
Proof. vm_compute. reflexivity. Qed.

(** The same user without the plan falls to the default of the feature. *)
Example getFeatureValue_alice_free :
  getFeatureValue murmur3 noOtherDigits
    (constructor exampleConfig "alice" {[ "plan" := "free" ]}) "f1"
  = Normal
      {| FeatureEvaluationResult.value := JBool false;
         FeatureEvaluationResult.reasoning :=
           [ "No matching value for attribute " +:+ quoted "plan"
               +:+ ". Segment does not match.";
             "Segment did not match: {" +:+ quoted "plan" +:+ ":["
               +:+ quoted "pro" +:+ "]}";
             "No segments matched. Using default value.";
             "No feature-level rollout applied.";
             "Final value: false" ] |}.
Proof. vm_compute. reflexivity. Qed.

(** A combo on a name that every object inherits: the user has set no
    attribute, yet the key has a value, which differs from [x]. *)
Example matchSegment_inherited_member :
  matchSegment (comboOf [("constructor", ["!x"])]) ∅ [] = Normal (true, []).
Proof. reflexivity. Qed.

(** A default value with a member named [toString] cannot be printed. *)
Example getFeatureValue_unprintable :
  getFeatureValue murmur3 noOtherDigits
    (constructor
       {| FeatureConfig.groups :=
            [ {| FeatureGroup.id := "g1"; FeatureGroup.description := "";
                 FeatureGroup.features :=
                   [ {| Feature.id := "f6"; Feature.description := "";
                        Feature.type := "json";
                        Feature.value := unprintableValue;
                        Feature.segments := [];
                        Feature.rollout := None |} ] |} ] |}
       "alice" ∅) "f6"
  = Throw TypeError.
Proof. vm_compute. reflexivity. Qed.

(** [setUserId] gives the manager that the constructor builds for the new
    user id. *)
Lemma setUserId_constructor config userId userAttributes userId' :
  setUserId (constructor config userId userAttributes) userId'
  = constructor config userId' userAttributes.
Proof. reflexivity. Qed.

(** ** The reasoning array is only added to *)

Lemma extend_nil {A} (c : Completion (A * list string)) : extend [] c = c.
Proof. destruct c as [[a t]|e]; reflexivity. Qed.

Lemma extend_extend {A} r t (c : Completion (A * list string)) :
  extend r (extend t c) = extend (r ++ t)%list c.
Proof.
  destruct c as [[a u]|e]; simpl; [|reflexivity].
  now rewrite app_assoc.
Qed.

Lemma framed_ret {A} (a : A) : framed (ret a).
Proof. intros r. unfold ret; simpl. now rewrite app_nil_r. Qed.

Lemma framed_push entry : framed (push entry).
Proof. intros r. reflexivity. Qed.

Lemma framed_throw {A} e : framed (@throw A e).
Proof. intros r. reflexivity. Qed.

Lemma framed_lift {A} (c : Completion A) : framed (lift c).
Proof.
  intros r. unfold lift. destruct c; simpl; [|reflexivity].
  now rewrite app_nil_r.
Qed.

Lemma framed_bind {A B} (m : M A) (f : A -> M B) :
  framed m -> (forall a, framed (f a)) -> framed (bind m f).
Proof.
  intros Hm Hf r. unfold bind. rewrite (Hm r).
  destruct (m []) as [[a t]|e]; simpl; [|reflexivity].
  rewrite (Hf a (r ++ t)%list), (Hf a t). now rewrite extend_extend.
Qed.

Create HintDb framed.
#[local] Hint Resolve framed_ret framed_push framed_throw framed_lift
  framed_bind : framed.

Lemma framed_matchValues attributeKey userValue values matchFound :
  framed (matchValues attributeKey userValue values matchFound).
Proof.
  revert matchFound.
  induction values as [|value values IH]; intros matchFound; simpl.
  - auto with framed.
  - destruct value; auto with framed.
    destruct (startsWithBang s).
    + destruct userValue as [text|]; [|auto].
      destruct (negb (String.eqb text (slice1 s))); auto with framed.
    + destruct (strictEquals userValue s); auto.
Qed.

(** The four ways in which the attribute object answers for a key: the
    empty string, a string that is not empty, an inherited member,
    nothing. *)
Ltac caseAttribute userAttributes attributeKey :=
  destruct (getAttribute userAttributes attributeKey) as [[[|?a ?text]|]|].

Lemma framed_matchEntries entries userAttributes :
  framed (matchEntries entries userAttributes).
Proof.
  induction entries as [|[attributeKey values] entries IH]; simpl.
  - auto with framed.
  - caseAttribute userAttributes attributeKey; auto with framed;
      (destruct (iterate values) as [tokens|e]; [|auto with framed];
       apply framed_bind; [apply framed_matchValues|];
       intros [result|[|]]; auto with framed).
Qed.

Lemma framed_matchSegment combo userAttributes :
  framed (matchSegment combo userAttributes).
Proof.
  unfold matchSegment.
  destruct (Object_entries combo); [apply framed_matchEntries|].
  apply framed_throw.
Qed.

(** ** Segment matcher *)

(** The inner loop ends with [matchFound] and nothing pushed, or with
    [return false] and one entry pushed, or with a [TypeError]. *)
Lemma matchValues_shape attributeKey userValue values matchFound r :
  match matchValues attributeKey userValue values matchFound r with
  | Normal (Finished _, t) => t = r
  | Normal (Returned b, t) =>
      b = false /\ exists entry, t = (r ++ [entry])%list
  | Throw e => e = TypeError
  end.
Proof.
  revert matchFound.
  induction values as [|value values IH]; intros matchFound; simpl.
  - reflexivity.
  - destruct value; try reflexivity.
    destruct (startsWithBang s).
    + destruct userValue as [text|]; [|apply IH].
      destruct (negb (String.eqb text (slice1 s))); [apply IH|].
      simpl. eauto.
    + destruct (strictEquals userValue s); apply IH.
Qed.

Lemma matchValues_Finished attributeKey userValue values matchFound r b t :
  matchValues attributeKey userValue values matchFound r = Normal (Finished b, t) ->
  t = r.
Proof.
  intros H. pose proof (matchValues_shape attributeKey userValue values
                          matchFound r) as Hshape.
  now rewrite H in Hshape.
Qed.

Lemma matchValues_Returned attributeKey userValue values matchFound r b t :
  matchValues attributeKey userValue values matchFound r = Normal (Returned b, t) ->
  b = false /\ exists entry, t = (r ++ [entry])%list.
Proof.
  intros H. pose proof (matchValues_shape attributeKey userValue values
                          matchFound r) as Hshape.
  now rewrite H in Hshape.
Qed.

Lemma matchValues_throws attributeKey userValue values matchFound r e :
  matchValues attributeKey userValue values matchFound r = Throw e ->
  e = TypeError.
Proof.
  intros H. pose proof (matchValues_shape attributeKey userValue values
                          matchFound r) as Hshape.
  now rewrite H in Hshape.
Qed.

(** What the inner loop decides on tokens of the declared type. *)
Lemma matchValues_decides attributeKey userValue (tokens : list string)
    matchFound r :
  exists t,
    matchValues attributeKey userValue (map JStr tokens) matchFound r
    = Normal (if existsb (tokenViolated userValue) tokens
              then Returned false
              else Finished (matchFound || existsb (tokenHit userValue) tokens),
              t).
Proof.
  revert matchFound.
  induction tokens as [|token tokens IH]; intros matchFound; simpl.
  - rewrite orb_false_r. unfold ret. eauto.
  - unfold tokenViolated at 1, tokenHit at 1.
    destruct (startsWithBang token); simpl.
    + destruct userValue as [text|]; simpl.
      * destruct (String.eqb text (slice1 token)); simpl.
        -- unfold bind, push, ret. eauto.
        -- destruct (IH true) as [t ->]. rewrite orb_true_r. eauto.
      * destruct (IH true) as [t ->]. rewrite orb_true_r. eauto.
    + destruct (strictEquals userValue token); simpl.
      * destruct (IH true) as [t ->]. rewrite orb_true_r. eauto.
      * apply IH.
Qed.

(** A call of [matchEntries] returns [true] with nothing pushed, or [false]
    with one entry pushed, or throws a [TypeError]. *)
Lemma matchEntries_shape entries userAttributes r :
  match matchEntries entries userAttributes r with
  | Normal (true, t) => t = r
  | Normal (false, t) => exists entry, t = (r ++ [entry])%list
  | Throw e => e = TypeError
  end.
Proof.
  revert r.
  induction entries as [|[attributeKey values] entries IH]; intros r; simpl.
  - reflexivity.
  - caseAttribute userAttributes attributeKey;
      try (unfold bind, push, ret; simpl; eauto; fail);
      (destruct (iterate values) as [tokens|e] eqn:Hiter;
       [|destruct values; simpl in Hiter; try discriminate;
         unfold throw; congruence];
       unfold bind at 1;
       match goal with
       | |- context [matchValues ?k ?u ?ts false r] =>
           pose proof (matchValues_shape k u ts false r) as Hshape;
           destruct (matchValues k u ts false r) as [[[result|[|]] t]|e]
       end;
       [destruct Hshape as [-> Hpushed]; exact Hpushed
       |subst t; apply IH
       |subst t; unfold bind, push, ret; simpl; eauto
       |exact Hshape]).
Qed.

Lemma matchEntries_throws entries userAttributes r e :
  matchEntries entries userAttributes r = Throw e -> e = TypeError.
Proof.
  intros H. pose proof (matchEntries_shape entries userAttributes r) as Hshape.
  now rewrite H in Hshape.
Qed.

Lemma matchEntries_pushes entries userAttributes r b t :
  matchEntries entries userAttributes r = Normal (b, t) ->
  if b then t = r else exists entry, t = (r ++ [entry])%list.
Proof.
  intros H. pose proof (matchEntries_shape entries userAttributes r) as Hshape.
  rewrite H in Hshape. now destruct b.
Qed.

(** A successful match of the first entries leaves the reasoning array as
    it was, and the entries after them are examined next. *)
Lemma matchEntries_app_true pre post userAttributes r t :
  matchEntries pre userAttributes r = Normal (true, t) ->
  t = r /\
  matchEntries (pre ++ post) userAttributes r = matchEntries post userAttributes r.
Proof.
  revert r.
  induction pre as [|[attributeKey values] pre IH]; intros r; simpl.
  - unfold ret. intros [= <-]. auto.
  - caseAttribute userAttributes attributeKey;
      try (unfold bind, push, ret; discriminate);
      (destruct (iterate values) as [tokens|e]; [|unfold throw; discriminate];
       unfold bind at 1 3;
       match goal with
       | |- context [matchValues ?k ?u ?ts false r] =>
           destruct (matchValues k u ts false r)
             as [[exit t']|e] eqn:Hexit; [|discriminate]
       end;
       destruct exit as [result|[|]];
       [apply matchValues_Returned in Hexit as [-> _]; unfold ret; discriminate
       |apply matchValues_Finished in Hexit as ->; apply IH
       |unfold bind, push, ret; discriminate]).
Qed.

Lemma matchSegment_true combo userAttributes r t :
  matchSegment combo userAttributes r = Normal (true, t) -> t = r.
Proof.
  unfold matchSegment.
  destruct (Object_entries combo) as [entries|e]; [|unfold throw; discriminate].
  intros H. now apply (matchEntries_app_true entries []) in H.
Qed.

Lemma matchSegment_throws combo userAttributes r e :
  matchSegment combo userAttributes r = Throw e -> e = TypeError.
Proof.
  unfold matchSegment. destruct combo; simpl; unfold ret, throw;
    try congruence; apply matchEntries_throws.
Qed.

(** What the matcher decides on a combo of the declared type. *)
Lemma matchEntries_decides (c : Combo) userAttributes r :
  exists t,
    matchEntries (map (fun kv => (fst kv, JArr (map JStr (snd kv)))) c)
      userAttributes r
    = Normal (comboHolds c userAttributes, t).
Proof.
  revert r.
  induction c as [|[attributeKey tokens] c IH]; intros r; simpl.
  - unfold ret. eauto.
  - caseAttribute userAttributes attributeKey;
      try (unfold bind, push, ret; simpl; eauto; fail);
      (unfold bind at 1;
       match goal with
       | |- context [matchValues ?k ?u (map JStr tokens) false r] =>
           destruct (matchValues_decides k u tokens false r) as [t ->];
           unfold keyHolds;
           destruct (existsb (tokenViolated u) tokens); simpl;
             [unfold ret; eauto|];
           destruct (existsb (tokenHit u) tokens); simpl;
             [apply IH|unfold bind, push, ret; eauto]
       end).
Qed.

Lemma matchSegment_declared (c : Combo) userAttributes r :
  exists matched t,
    matchSegment (comboOf c) userAttributes r = Normal (matched, t).
Proof.
  destruct (matchEntries_decides c userAttributes r) as [t Ht]. eauto.
Qed.

Lemma declared_accepts_or_declines userAttributes segment :
  declared segment ->
  accepts userAttributes segment \/ declines userAttributes segment.
Proof.
  intros [c Hc]. unfold accepts, declines. rewrite Hc.
  destruct (matchSegment_declared c userAttributes []) as ([|] & t & ->); eauto.
Qed.

Lemma getAttribute_own (userAttributes : UserAttributes) attributeKey s :
  userAttributes !! attributeKey = Some s ->
  getAttribute userAttributes attributeKey = Some (Text s).
Proof. intros H. unfold getAttribute. now rewrite H. Qed.

(** C1, as the code has it.  For the combo that maps [region] to the tokens
    [US] and [!EU], a user whose attribute [region] is [CA] matches: the
    negation [!EU] is not violated and that alone sets [matchFound], so
    [matchSegment] returns [true] and pushes nothing. *)
Theorem mixed_tokens_other_region_matches
    (userAttributes : UserAttributes) (reasoning : list string) :
  userAttributes !! "region" = Some "CA" ->
  matchSegment regionCombo userAttributes reasoning = Normal (true, reasoning).
Proof.
  intros Hregion. unfold matchSegment, regionCombo; simpl.
  rewrite (getAttribute_own _ _ _ Hregion). reflexivity.
Qed.

Lemma mixed_tokens_other_region_matches_witness :
  matchSegment regionCombo {[ "region" := "CA" ]} [] = Normal (true, []).
Proof.
  apply (mixed_tokens_other_region_matches {[ "region" := "CA" ]} []).
  reflexivity.
Defined.

(** C1 as stated fails: for that combo and [region = CA] the matcher does
    not return [false]. *)
Lemma mixed_tokens_other_region_counterexample :
  ~ (exists pushed,
       matchSegment regionCombo {[ "region" := "CA" ]} [] = Normal (false, pushed)).
Proof. intros [pushed H]. vm_compute in H. discriminate. Qed.

(** ** Attributes set to the empty string *)

Lemma comboHolds_false (c : Combo) (userAttributes : UserAttributes)
    attributeKey tokens :
  In (attributeKey, tokens) c ->
  match getAttribute userAttributes attributeKey with
  | None | Some (Text EmptyString) => false
  | Some userValue => keyHolds userValue tokens
  end = false ->
  comboHolds c userAttributes = false.
Proof.
  intros Hin Hkey. unfold comboHolds.
  destruct (forallb _ c) eqn:Hall; [|reflexivity].
  rewrite forallb_forall in Hall. specialize (Hall _ Hin). simpl in Hall.
  congruence.
Qed.



(** * Further properties of the engine *)

(** ** What the matcher decides *)

(** X1.  For a combo of the declared type, [matchSegment] returns, and its
    answer is [comboHolds]: the attribute object gives for every key a
    value other than the empty string, no negated token of a key is that
    value, and for every key some token is a negation or is the value.  The
    value is the string the user has set, or the inherited member of a key
    that names a member of [Object.prototype], which no token equals. *)
Theorem matchSegment_decides (c : Combo) (userAttributes : UserAttributes)
    (reasoning : list string) :
  exists t,
    matchSegment (comboOf c) userAttributes reasoning
    = Normal (comboHolds c userAttributes, t).
Proof. apply matchEntries_decides. Qed.

(** ** What the matcher pushes *)

(** X2.  Whatever the combo, a call of [matchSegment] that returns [true]
    leaves the reasoning array as it was, and one that returns [false] has
    pushed exactly one entry, the reason of the failure. *)
Theorem matchSegment_pushes_one_reason (combo : JsVal)
    (userAttributes : UserAttributes) (reasoning : list string)
    (matched : bool) (t : list string) :
  matchSegment combo userAttributes reasoning = Normal (matched, t) ->
  if matched then t = reasoning
  else exists entry, t = (reasoning ++ [entry])%list.
Proof.
  unfold matchSegment.
  destruct (Object_entries combo) as [entries|e]; [|unfold throw; discriminate].
  apply matchEntries_pushes.
Qed.

Lemma matchSegment_pushes_one_reason_witness :
  exists entry,
    [ "No matching value for attribute " +:+ quoted "plan"
      +:+ ". Segment does not match." ]
    = ([] ++ [entry])%list.
Proof.
  apply (matchSegment_pushes_one_reason (comboOf [("plan", ["pro"])])
           {[ "plan" := "free" ]} [] false).
  reflexivity.
Defined.

(** X3.  A violated negation wins over everything else in the combo: when
    the tokens of a key hold the negation of the value the user has for the
    key, a combo of the declared type does not match, whatever other tokens
    and keys it has. *)
Theorem violated_negation_never_matches (c : Combo)
    (userAttributes : UserAttributes) (attributeKey userValue : string)
    (tokens : list string) (reasoning : list string) :
  In (attributeKey, tokens) c ->
  userAttributes !! attributeKey = Some userValue ->
  In ("!" +:+ userValue) tokens ->
  exists t,
    matchSegment (comboOf c) userAttributes reasoning = Normal (false, t).
Proof.
  intros Hkey Hvalue Htoken.
  destruct (matchEntries_decides c userAttributes reasoning) as [t Ht].
  exists t. unfold matchSegment, comboOf; simpl. rewrite Ht.
  rewrite (comboHolds_false c userAttributes attributeKey tokens Hkey);
    [reflexivity|].
  rewrite (getAttribute_own _ _ _ Hvalue).
  destruct userValue as [|a rest]; [reflexivity|].
  unfold keyHolds.
  assert (Hviolated :
            existsb (tokenViolated (Text (String a rest))) tokens = true).
  { apply existsb_exists. exists ("!" +:+ String a rest).
    split; [exact Htoken|].
    unfold tokenViolated. apply andb_true_intro.
    split; [reflexivity|apply (String.eqb_refl (String a rest))]. }
  now rewrite Hviolated.
Qed.

Lemma violated_negation_never_matches_witness :
  exists t,
    matchSegment (comboOf [("region", ["EU"; "!EU"])]) {[ "region" := "EU" ]} []
    = Normal (false, t).
Proof.
  apply (violated_negation_never_matches [("region", ["EU"; "!EU"])]
           {[ "region" := "EU" ]} "region" "EU" ["EU"; "!EU"] []).
  - now left.
  - reflexivity.
  - right. now left.
Defined.

(** X4.  A key with an empty token list cannot be satisfied: a combo of the
    declared type that has such a key matches no user. *)
Theorem empty_token_list_never_matches (c : Combo)
    (userAttributes : UserAttributes) (attributeKey : string)
    (reasoning : list string) :
  In (attributeKey, []) c ->
  exists t,
    matchSegment (comboOf c) userAttributes reasoning = Normal (false, t).
Proof.
  intros Hkey.
  destruct (matchEntries_decides c userAttributes reasoning) as [t Ht].
  exists t. unfold matchSegment, comboOf; simpl. rewrite Ht.
  rewrite (comboHolds_false c userAttributes attributeKey [] Hkey);
    [reflexivity|].
  now caseAttribute userAttributes attributeKey.
Qed.

Lemma empty_token_list_never_matches_witness :
  exists t,
    matchSegment (comboOf [("region", [])]) {[ "region" := "EU" ]} []
    = Normal (false, t).
Proof.
  apply (empty_token_list_never_matches [("region", [])]
           {[ "region" := "EU" ]} "region" []).
  now left.
Defined.

(** ** What the matcher does not depend on *)

Lemma existsb_Permutation {A} (f : A -> bool) l l' :
  Permutation l l' -> existsb f l = existsb f l'.
Proof.
  induction 1 as [|x l l' _ IH|x y l|l l' l'' _ IH1 _ IH2]; simpl.
  - reflexivity.
  - now rewrite IH.
  - destruct (f x), (f y); reflexivity.
  - congruence.
Qed.

Lemma forallb_Permutation {A} (f : A -> bool) l l' :
  Permutation l l' -> forallb f l = forallb f l'.
Proof.
  induction 1 as [|x l l' _ IH|x y l|l l' l'' _ IH1 _ IH2]; simpl.
  - reflexivity.
  - now rewrite IH.
  - destruct (f x), (f y); reflexivity.
  - congruence.
Qed.

Lemma comboHolds_reordered c c' userAttributes :
  reordered c c' -> comboHolds c userAttributes = comboHolds c' userAttributes.
Proof.
  intros (c'' & Htokens & Hkeys).
  transitivity (comboHolds c'' userAttributes);
    [|apply forallb_Permutation, Hkeys].
  clear Hkeys.
  induction Htokens as [|[key tokens] [key' tokens'] c c'' [Hkey Hperm] _ IH];
    simpl in *; [reflexivity|].
  subst key'. rewrite IH. f_equal.
  caseAttribute userAttributes key; try reflexivity;
    (unfold keyHolds;
     match goal with
     | |- context [tokenViolated ?u] =>
         now rewrite (existsb_Permutation (tokenViolated u) _ _ Hperm),
           (existsb_Permutation (tokenHit u) _ _ Hperm)
     end).
Qed.

(** X5.  Whether a combo of the declared type matches does not depend on
    the order of its keys nor on the order of the tokens of a key: the
    order only shows in the reason that is pushed. *)
Theorem match_independent_of_order (c c' : Combo)
    (userAttributes : UserAttributes) (reasoning : list string) :
  reordered c c' ->
  exists matched t t',
    matchSegment (comboOf c) userAttributes reasoning = Normal (matched, t)
    /\ matchSegment (comboOf c') userAttributes reasoning
       = Normal (matched, t').
Proof.
  intros Hreordered.
  destruct (matchEntries_decides c userAttributes reasoning) as [t Ht].
  destruct (matchEntries_decides c' userAttributes reasoning) as [t' Ht'].
  exists (comboHolds c userAttributes), t, t'.
  split; [exact Ht|].
  rewrite (comboHolds_reordered c c' userAttributes Hreordered). exact Ht'.
Qed.

Lemma match_independent_of_order_witness :
  exists matched t t',
    matchSegment (comboOf [("region", ["US"; "!EU"]); ("plan", ["pro"])])
      {[ "region" := "CA" ]} [] = Normal (matched, t)
    /\ matchSegment (comboOf [("plan", ["pro"]); ("region", ["!EU"; "US"])])
         {[ "region" := "CA" ]} [] = Normal (matched, t').
Proof.
  apply (match_independent_of_order
           [("region", ["US"; "!EU"]); ("plan", ["pro"])]
           [("plan", ["pro"]); ("region", ["!EU"; "US"])]).
  exists [("region", ["!EU"; "US"]); ("plan", ["pro"])]. split.
  - repeat constructor.
  - constructor.
Defined.

(** X6.  The matcher reads the user's attributes at the keys of the combo
    and nowhere else: two users whose attributes agree on these keys get
    the same answer and the same reason, or the same exception. *)
Theorem matchSegment_reads_combo_keys (entries : list (string * JsVal))
    (userAttributes userAttributes' : UserAttributes)
    (reasoning : list string) :
  (forall attributeKey,
     In attributeKey (map fst entries) ->
     userAttributes !! attributeKey = userAttributes' !! attributeKey) ->
  matchSegment (JObj entries) userAttributes reasoning
  = matchSegment (JObj entries) userAttributes' reasoning.
Proof.
  unfold matchSegment; simpl. revert reasoning.
  induction entries as [|[attributeKey values] entries IH];
    intros reasoning Hagree; simpl; [reflexivity|].
  assert (Hsame : getAttribute userAttributes' attributeKey
                  = getAttribute userAttributes attributeKey).
  { unfold getAttribute. now rewrite <- (Hagree attributeKey) by now left. }
  rewrite Hsame.
  caseAttribute userAttributes attributeKey; try reflexivity;
    (destruct (iterate values) as [tokens|e]; [|reflexivity];
     unfold bind at 1 3;
     match goal with
     | |- context [matchValues ?k ?u ?ts false reasoning] =>
         destruct (matchValues k u ts false reasoning)
           as [[[result|[|]] t]|e]; try reflexivity
     end;
     apply IH; intros key Hkey; apply Hagree; now right).
Qed.

Lemma matchSegment_reads_combo_keys_witness :
  matchSegment (JObj [("region", JArr [JStr "US"; JStr "!EU"])])
    {[ "region" := "CA" ]} []
  = matchSegment (JObj [("region", JArr [JStr "US"; JStr "!EU"])])
      (<[ "plan" := "pro" ]> {[ "region" := "CA" ]}) [].
Proof.
  apply (matchSegment_reads_combo_keys
           [("region", JArr [JStr "US"; JStr "!EU"])]
           {[ "region" := "CA" ]} (<[ "plan" := "pro" ]> {[ "region" := "CA" ]})).
  intros attributeKey [<-|[]]. reflexivity.
Defined.

(** ** Printing *)

Lemma JsVal_array_ind (P : JsVal -> Prop) :
  P JUndefined -> P JNull -> (forall b, P (JBool b)) ->
  (forall n, P (JNum n)) -> (forall s, P (JStr s)) ->
  (forall elements, Forall P elements -> P (JArr elements)) ->
  (forall entries, P (JObj entries)) ->
  forall v, P v.
Proof.
  intros Hundefined Hnull Hbool Hnum Hstr Harr Hobj.
  fix IH 1.
  intros [| |b|n|s|elements|entries];
    [exact Hundefined|exact Hnull|apply Hbool|apply Hnum|apply Hstr|
    |apply Hobj].
  apply Harr. revert elements.
  fix IHelements 1. intros [|e elements]; constructor;
    [apply IH|apply IHelements].
Qed.

(** A template literal throws nothing but a [TypeError]. *)
Lemma toString_throws otherDigits v e :
  toString otherDigits v = Throw e -> e = TypeError.
Proof.
  revert e. induction v as [| |b|n|s|elements IH|entries]
    using JsVal_array_ind; intros e; simpl; try discriminate.
  - destruct b; discriminate.
  - assert (Helements :
              forall e',
                traverse
                  (fun x => match x with
                            | JUndefined | JNull => Normal EmptyString
                            | _ => toString otherDigits x
                            end) elements = Throw e' ->
                e' = TypeError).
    { induction IH as [|x elements Hx _ IHelements]; intros e'; simpl;
        [discriminate|].
      destruct (match x with
                | JUndefined | JNull => Normal EmptyString
                | _ => toString otherDigits x
                end) as [printed|err] eqn:Hhead.
      - destruct (traverse _ elements) as [parts|err] eqn:Htail;
          [discriminate|].
        intros [= <-]. now apply IHelements.
      - intros [= <-]. destruct x; try discriminate; now apply Hx. }
    destruct (traverse _ elements) as [parts|err] eqn:Hparts;
      [discriminate|].
    intros [= <-]. now apply Helements.
  - destruct (member "toString" entries); [|discriminate].
    now intros [= <-].
Qed.

Lemma printable_prints otherDigits v :
  printable v -> prints otherDigits v = true.
Proof. intros H. unfold prints. now destruct (H otherDigits) as [s ->]. Qed.

Lemma prints_toString otherDigits v :
  prints otherDigits v = true ->
  exists printed, toString otherDigits v = Normal printed.
Proof. unfold prints. destruct (toString otherDigits v); [eauto|discriminate]. Qed.

Lemma not_prints_toString otherDigits v :
  prints otherDigits v = false -> toString otherDigits v = Throw TypeError.
Proof.
  unfold prints. destruct (toString otherDigits v) as [s|e] eqn:H;
    [discriminate|].
  now rewrite (toString_throws _ _ _ H).
Qed.

(** ** Rollout bucketer *)

Lemma lessThan_atMost hash percentage percentage' :
  atMost percentage percentage' ->
  lessThan hash percentage = true -> lessThan hash percentage' = true.
Proof.
  destruct percentage as [p| | |], percentage' as [q| | |]; simpl;
    try tauto; try discriminate.
  intros Hle Hlt.
  destruct (Qle_bool q (inject_Z hash)) eqn:Hq; [|reflexivity].
  destruct (Qle_bool p (inject_Z hash)) eqn:Hp; [discriminate|].
  apply Qle_bool_iff in Hq.
  assert (Hp' : Qle_bool p (inject_Z hash) = true).
  { apply Qle_bool_iff. now apply (Qle_trans _ q). }
  congruence.
Qed.

Lemma lessThan_integer hash (n : Z) : lessThan hash n = (hash <? n).
Proof.
  unfold lessThan, integer, Qle_bool; simpl. rewrite !Z.mul_1_r.
  destruct (Z.leb_spec n hash), (Z.ltb_spec hash n); simpl; try reflexivity;
    lia.
Qed.

Section Bucketer.

Variable murmurhash_v3 : string -> Z.
Variable otherDigits : Q -> string.

Lemma hashUser_range userId groupId :
  0 <= hashUser murmurhash_v3 userId groupId <= 99.
Proof.
  unfold hashUser.
  pose proof (Z.rem_bound_pos
                (Z.abs (murmurhash_v3 (userId +:+ "-" +:+ groupId))) 100
                (Z.abs_nonneg _)).
  lia.
Qed.

(** A rollout ends with the value it chooses when that value can be
    printed, and with a [TypeError] otherwise. *)
Lemma evaluateRollout_outcome userId groupId rollout currentValue r :
  exists t,
    evaluateRollout murmurhash_v3 otherDigits userId groupId rollout
      currentValue r
    = if prints otherDigits
           (rolloutChoice (hashUser murmurhash_v3 userId groupId)
              (Some rollout) currentValue)
      then Normal (rolloutChoice (hashUser murmurhash_v3 userId groupId)
                     (Some rollout) currentValue, t)
      else Throw TypeError.
Proof.
  unfold evaluateRollout, rolloutChoice, print, lift, bind, push, ret.
  destruct (lessThan _ _);
    match goal with
    | |- context [prints otherDigits ?v] =>
        destruct (prints otherDigits v) eqn:Hprints;
        [apply prints_toString in Hprints as [printed ->]
        |apply not_prints_toString in Hprints as ->]
    end; eauto.
Qed.

(** C3, where the code breaks it.  With a percentage of 0 and a secondary
    value that has a member named [toString], and with a percentage of 100
    and such a value passed in, the rollout does not return the value: the
    template literal that prints it throws a [TypeError]. *)
Theorem rollout_threshold_boundary_breaks (userId groupId : string)
    (otherValue : JsVal) (reasoning : list string) :
  evaluateRollout murmurhash_v3 otherDigits userId groupId
    {| Rollout.percentage := 0; Rollout.secondaryValue := unprintableValue |}
    otherValue reasoning = Throw TypeError
  /\ evaluateRollout murmurhash_v3 otherDigits userId groupId
       {| Rollout.percentage := 100; Rollout.secondaryValue := otherValue |}
       unprintableValue reasoning = Throw TypeError.
Proof.
  pose proof (hashUser_range userId groupId) as Hrange.
  split.
  - destruct (evaluateRollout_outcome userId groupId
                {| Rollout.percentage := 0;
                   Rollout.secondaryValue := unprintableValue |}
                otherValue reasoning) as [t ->].
    unfold rolloutChoice.
    cbn [Rollout.percentage Rollout.secondaryValue].
    rewrite lessThan_integer.
    destruct (Z.ltb_spec (hashUser murmurhash_v3 userId groupId) 0);
      [lia|reflexivity].
  - destruct (evaluateRollout_outcome userId groupId
                {| Rollout.percentage := 100;
                   Rollout.secondaryValue := otherValue |}
                unprintableValue reasoning) as [t ->].
    unfold rolloutChoice.
    cbn [Rollout.percentage Rollout.secondaryValue].
    rewrite lessThan_integer.
    destruct (Z.ltb_spec (hashUser murmurhash_v3 userId groupId) 100);
      [reflexivity|lia].
Qed.

(** C4.  The bucket of a user in a group lies between 0 and 99, and it is
    a function of the two ids alone: equal ids give equal buckets. *)
Theorem hashUser_bucket (userId groupId : string) :
  0 <= hashUser murmurhash_v3 userId groupId <= 99
  /\ forall userId' groupId',
       userId' = userId -> groupId' = groupId ->
       hashUser murmurhash_v3 userId' groupId'
       = hashUser murmurhash_v3 userId groupId.
Proof.
  split; [apply hashUser_range|].
  intros userId' groupId' -> ->. reflexivity.
Qed.

(** X7.  Raising the percentage never takes a user out of a rollout, and
    the rollouts of one group share the user's bucket: a user who gets the
    primary value of a rollout gets the primary value, if it can be
    printed, of every rollout of the same group whose percentage is at
    least as high. *)
Theorem rollout_grows_with_percentage (userId groupId : string)
    (rollout rollout' : Rollout.t) (currentValue currentValue' : JsVal)
    (reasoning reasoning' t : list string) :
  atMost (Rollout.percentage rollout) (Rollout.percentage rollout') ->
  currentValue <> Rollout.secondaryValue rollout ->
  evaluateRollout murmurhash_v3 otherDigits userId groupId rollout
    currentValue reasoning
  = Normal (currentValue, t) ->
  printable currentValue' ->
  exists t',
    evaluateRollout murmurhash_v3 otherDigits userId groupId rollout'
      currentValue' reasoning'
    = Normal (currentValue', t').
Proof.
  intros Hle Hdistinct Hprimary Hprintable.
  destruct (evaluateRollout_outcome userId groupId rollout currentValue
              reasoning) as [t0 Hchoice].
  rewrite Hchoice in Hprimary.
  destruct (prints otherDigits _); [|discriminate].
  injection Hprimary as Hvalue _.
  destruct (evaluateRollout_outcome userId groupId rollout' currentValue'
              reasoning') as [t' ->].
  unfold rolloutChoice in *.
  destruct (lessThan (hashUser murmurhash_v3 userId groupId)
              (Rollout.percentage rollout)) eqn:Hin; [|congruence].
  rewrite (lessThan_atMost _ _ _ Hle Hin).
  rewrite (printable_prints otherDigits _ Hprintable). eauto.
Qed.

(** X8.  A percentage outside 0..100 is not rejected: at or below 0 every
    user gets the secondary value, at or above 100 every user gets the
    primary value, each provided it can be printed. *)
Theorem rollout_saturates (userId groupId : string) (rollout : Rollout.t)
    (currentValue : JsVal) (reasoning : list string) :
  (atMost (Rollout.percentage rollout) 0 ->
   printable (Rollout.secondaryValue rollout) ->
   exists t,
     evaluateRollout murmurhash_v3 otherDigits userId groupId rollout
       currentValue reasoning
     = Normal (Rollout.secondaryValue rollout, t))
  /\ (atMost 100 (Rollout.percentage rollout) ->
      printable currentValue ->
      exists t,
        evaluateRollout murmurhash_v3 otherDigits userId groupId rollout
          currentValue reasoning
        = Normal (currentValue, t)).
Proof.
  pose proof (hashUser_range userId groupId) as Hrange.
  destruct (evaluateRollout_outcome userId groupId rollout currentValue
              reasoning) as [t ->].
  unfold rolloutChoice.
  split; intros Hpercentage Hprintable.
  - assert (Hout : lessThan (hashUser murmurhash_v3 userId groupId)
                     (Rollout.percentage rollout) = false).
    { destruct (lessThan _ (Rollout.percentage rollout)) eqn:Hin;
        [|reflexivity].
      pose proof (lessThan_atMost _ _ _ Hpercentage Hin) as Hzero.
      rewrite lessThan_integer in Hzero.
      destruct (Z.ltb_spec (hashUser murmurhash_v3 userId groupId) 0);
        [lia|discriminate]. }
    rewrite Hout, (printable_prints otherDigits _ Hprintable). eauto.
  - assert (Hin : lessThan (hashUser murmurhash_v3 userId groupId)
                    (Rollout.percentage rollout) = true).
    { apply (lessThan_atMost _ 100); [exact Hpercentage|].
      rewrite lessThan_integer.
      destruct (Z.ltb_spec (hashUser murmurhash_v3 userId groupId) 100);
        [reflexivity|lia]. }
    rewrite Hin, (printable_prints otherDigits _ Hprintable). eauto.
Qed.

End Bucketer.

Lemma append_associative (a b c : string) :
  (a +:+ b) +:+ c = a +:+ (b +:+ c).
Proof.
  induction a as [|x a IH]; [reflexivity|].
  change (String x ((a +:+ b) +:+ c) = String x (a +:+ (b +:+ c))).
  now rewrite IH.
Qed.

(** X9.  The bucket is taken from the two ids joined by a dash, so a dash
    may move from one id to the other without changing the bucket: the
    user [u-x] in the group [g] and the user [u] in the group [x-g] always
    share one. *)
Theorem hashUser_joins_ids (murmurhash_v3 : string -> Z)
    (userId middle groupId : string) :
  hashUser murmurhash_v3 (userId +:+ "-" +:+ middle) groupId
  = hashUser murmurhash_v3 userId (middle +:+ "-" +:+ groupId).
Proof.
  unfold hashUser. now rewrite !append_associative.
Qed.

Lemma hashUser_bucket_witness :
  0 <= hashUser murmur3 "alice" "g1" <= 99
  /\ hashUser murmur3 ("al" +:+ "ice") "g1" = hashUser murmur3 "alice" "g1".
Proof.
  destruct (hashUser_bucket murmur3 "alice" "g1") as [Hrange Hsame].
  split; [exact Hrange|].
  apply Hsame; reflexivity.
Defined.

Lemma rollout_grows_with_percentage_witness :
  exists t',
    evaluateRollout murmur3 noOtherDigits "alice" "g1"
      {| Rollout.percentage := Finite (191 # 2);
         Rollout.secondaryValue := JStr "old" |}
      (JStr "new") [] = Normal (JStr "new", t').
Proof.
  eapply (rollout_grows_with_percentage murmur3 noOtherDigits "alice" "g1"
            {| Rollout.percentage := 90; Rollout.secondaryValue := JBool false |}
            {| Rollout.percentage := Finite (191 # 2);
               Rollout.secondaryValue := JStr "old" |}
            (JBool true) (JStr "new") [] []).
  - vm_compute. discriminate.
  - discriminate.
  - vm_compute. reflexivity.
  - intros digits. eexists. reflexivity.
Defined.

Lemma rollout_saturates_witness :
  (exists t,
     evaluateRollout murmur3 noOtherDigits "alice" "g1"
       {| Rollout.percentage := -5; Rollout.secondaryValue := JBool false |}
       (JBool true) [] = Normal (JBool false, t))
  /\ (exists t,
        evaluateRollout murmur3 noOtherDigits "alice" "g1"
          {| Rollout.percentage := PlusInfinity;
             Rollout.secondaryValue := JBool false |}
          (JBool true) [] = Normal (JBool true, t)).
Proof.
  split.
  - apply (rollout_saturates murmur3 noOtherDigits "alice" "g1"
             {| Rollout.percentage := -5;
                Rollout.secondaryValue := JBool false |} (JBool true) []).
    + vm_compute. discriminate.
    + intros digits. eexists. reflexivity.
  - apply (rollout_saturates murmur3 noOtherDigits "alice" "g1"
             {| Rollout.percentage := PlusInfinity;
                Rollout.secondaryValue := JBool false |} (JBool true) []).
    + exact I.
    + intros digits. eexists. reflexivity.
Defined.

(** ** The feature map *)

Lemma fold_left_entries (groupId : string) (features : list Feature.t)
    (featureMap : gmap string (Feature.t * string)) :
  fold_left
    (fun featureMap feature =>
       <[Feature.id feature := (feature, groupId)]> featureMap)
    features featureMap
  = setAll (map (fun feature => (feature, groupId)) features) featureMap.
Proof.
  revert featureMap.
  induction features as [|feature features IH]; intros featureMap; simpl;
    [reflexivity|apply IH].
Qed.

Lemma constructor_featureMap config userId userAttributes :
  FeatureManager.featureMap (constructor config userId userAttributes)
  = setAll (featureEntries config) ∅.
Proof.
  unfold constructor, featureEntries; simpl.
  generalize (∅ : gmap string (Feature.t * string)).
  induction (FeatureConfig.groups config) as [|group groups IH];
    intros featureMap; simpl; [reflexivity|].
  rewrite IH, fold_left_entries. unfold setAll.
  now rewrite fold_left_app.
Qed.

Lemma setAll_other entries featureMap featureId :
  Forall (fun entry => Feature.id (fst entry) <> featureId) entries ->
  setAll entries featureMap !! featureId = featureMap !! featureId.
Proof.
  intros Hother. revert featureMap.
  induction Hother as [|entry entries Hentry _ IH]; intros featureMap; simpl;
    [reflexivity|].
  unfold setAll in *; simpl. rewrite IH. now apply lookup_insert_ne.
Qed.

Lemma setAll_last pre entry post featureMap :
  Forall (fun later => Feature.id (fst later) <> Feature.id (fst entry)) post ->
  setAll (pre ++ entry :: post) featureMap !! Feature.id (fst entry)
  = Some entry.
Proof.
  intros Hpost. unfold setAll. rewrite fold_left_app; simpl.
  fold (setAll pre featureMap).
  fold (setAll post
          (<[Feature.id (fst entry) := entry]> (setAll pre featureMap))).
  rewrite setAll_other by assumption. apply lookup_insert_eq.
Qed.

Lemma setAll_None entries featureMap featureId :
  setAll entries featureMap !! featureId = None <->
  featureMap !! featureId = None
  /\ Forall (fun entry => Feature.id (fst entry) <> featureId) entries.
Proof.
  revert featureMap.
  induction entries as [|entry entries IH]; intros featureMap.
  - simpl. split; [auto|tauto].
  - unfold setAll in *; simpl. rewrite IH, lookup_insert_None, Forall_cons.
    tauto.
Qed.

(** The ids the feature map does not hold are those of no feature of the
    configuration. *)
Lemma featureMap_None config userId userAttributes featureId :
  FeatureManager.featureMap (constructor config userId userAttributes)
    !! featureId = None <->
  Forall (fun entry => Feature.id (fst entry) <> featureId)
    (featureEntries config).
Proof.
  rewrite constructor_featureMap, setAll_None, lookup_empty. tauto.
Qed.

Lemma featuresList_entries config :
  featuresList config
  = map (fun entry => Feature.id (fst entry)) (featureEntries config).
Proof.
  unfold featuresList, featureEntries.
  induction (FeatureConfig.groups config) as [|group groups IH]; simpl;
    [reflexivity|].
  rewrite map_app, IH. f_equal.
  induction (FeatureGroup.features group) as [|feature features IHf]; simpl;
    [reflexivity|now rewrite IHf].
Qed.

Lemma setAll_invariant (P : string -> Feature.t * string -> Prop)
    entries featureMap :
  (forall featureId entry, featureMap !! featureId = Some entry ->
                           P featureId entry) ->
  Forall (fun entry => P (Feature.id (fst entry)) entry) entries ->
  forall featureId entry,
    setAll entries featureMap !! featureId = Some entry -> P featureId entry.
Proof.
  intros Hmap Hentries. revert featureMap Hmap.
  induction Hentries as [|head entries Hhead _ IH]; intros featureMap Hmap;
    [exact Hmap|].
  unfold setAll in *; simpl. apply IH.
  intros featureId entry.
  destruct (decide (Feature.id (fst head) = featureId)) as [<-|Hne].
  - rewrite lookup_insert_eq. now intros [= <-].
  - rewrite lookup_insert_ne by assumption. apply Hmap.
Qed.

Lemma featureMap_lookup_in_config config userId userAttributes featureId
    feature groupId :
  FeatureManager.featureMap (constructor config userId userAttributes)
    !! featureId = Some (feature, groupId) ->
  Feature.id feature = featureId
  /\ exists group,
       In group (FeatureConfig.groups config)
       /\ FeatureGroup.id group = groupId
       /\ In feature (FeatureGroup.features group).
Proof.
  rewrite constructor_featureMap.
  apply (setAll_invariant
           (fun featureId entry =>
              Feature.id (fst entry) = featureId
              /\ exists group,
                   In group (FeatureConfig.groups config)
                   /\ FeatureGroup.id group = snd entry
                   /\ In (fst entry) (FeatureGroup.features group))).
  - intros id entry. rewrite lookup_empty. discriminate.
  - apply List.Forall_forall. intros [f g] Hin. split; [reflexivity|].
    unfold featureEntries in Hin. apply in_flat_map in Hin as (group & Hgroup & Hin).
    apply in_map_iff in Hin as (f' & [= <- <-] & Hf).
    exists group. auto.
Qed.

(** X10.  Every entry of the feature map sits under the id of its feature,
    and its group id is the id of a group of the configuration that holds
    the feature. *)
Theorem featureMap_entries_come_from_config (config : FeatureConfig.t)
    (userId : string) (userAttributes : UserAttributes)
    (featureId : string) (feature : Feature.t) (groupId : string) :
  FeatureManager.featureMap (constructor config userId userAttributes)
    !! featureId = Some (feature, groupId) ->
  Feature.id feature = featureId
  /\ exists group,
       In group (FeatureConfig.groups config)
       /\ FeatureGroup.id group = groupId
       /\ In feature (FeatureGroup.features group).
Proof. apply featureMap_lookup_in_config. Qed.

Lemma featureMap_entries_come_from_config_witness :
  Feature.id laterFeature = "f1"
  /\ exists group,
       In group (FeatureConfig.groups duplicateConfig)
       /\ FeatureGroup.id group = "g2"
       /\ In laterFeature (FeatureGroup.features group).
Proof.
  apply (featureMap_entries_come_from_config duplicateConfig "alice" ∅).
  reflexivity.
Defined.

(** ** Evaluation orchestrator *)

Lemma rolloutChoice_configured bucket rollout currentValue :
  In (rolloutChoice bucket rollout currentValue)
    (currentValue :: secondaryValues rollout).
Proof.
  unfold rolloutChoice. destruct rollout as [r|]; simpl; [|auto].
  destruct (lessThan _ _); auto.
Qed.

Lemma valueOutcome_Normal otherDigits bucket rollout currentValue x :
  valueOutcome otherDigits bucket rollout currentValue = Normal x ->
  x = rolloutChoice bucket rollout currentValue.
Proof.
  unfold valueOutcome. destruct (forallb _ _); [|discriminate].
  now intros [= <-].
Qed.

Lemma valueOutcome_Throw otherDigits bucket rollout currentValue e :
  valueOutcome otherDigits bucket rollout currentValue = Throw e ->
  e = TypeError.
Proof.
  unfold valueOutcome. destruct (forallb _ _); [discriminate|].
  now intros [= <-].
Qed.

Lemma valueOutcome_printable otherDigits bucket rollout currentValue :
  printable currentValue -> printableRollout rollout ->
  valueOutcome otherDigits bucket rollout currentValue
  = Normal (rolloutChoice bucket rollout currentValue).
Proof.
  intros Hvalue Hrollout. unfold valueOutcome; simpl.
  rewrite (printable_prints otherDigits _ Hvalue).
  destruct rollout as [r|]; simpl; [|reflexivity].
  now rewrite (printable_prints otherDigits _ Hrollout).
Qed.

Section Orchestrator.

Variable murmurhash_v3 : string -> Z.
Variable otherDigits : Q -> string.

Abbreviation bucketOf this groupId :=
  (hashUser murmurhash_v3 (FeatureManager.userId this) groupId).

(** Every template literal of the goal is decided, and an exception that
    it throws is the [TypeError]. *)
Ltac decidePrints :=
  repeat match goal with
         | H : toString otherDigits ?v = _
           |- context [toString otherDigits ?v] => rewrite H
         | |- context [toString otherDigits ?v] =>
             let H := fresh "Hprinted" in
             let He := fresh "He" in
             destruct (toString otherDigits v) as [?printed|?e] eqn:H;
             [|pose proof H as He; apply toString_throws in He; subst]
         end.

Ltac lastEntry :=
  try solve [exfalso; congruence];
  eexists _, _; (split; [reflexivity|]); repeat f_equal; congruence.

(** How the body of the loop ends for a segment that matched. *)
Lemma segmentMatched_outcome this groupId segment r :
  exists t,
    segmentMatched murmurhash_v3 otherDigits this groupId segment r
    = match valueOutcome otherDigits (bucketOf this groupId)
              (Segment.rollout segment) (Segment.value segment) with
      | Normal x => Normal (x, t)
      | Throw e => Throw e
      end.
Proof.
  unfold segmentMatched, evaluateRollout, valueOutcome, rolloutChoice,
    secondaryValues, prints, print, lift, bind, push, ret.
  destruct (Segment.rollout segment) as [rollout|]; simpl.
  - destruct (lessThan _ _); decidePrints; simpl; eauto.
  - decidePrints; simpl; eauto.
Qed.

(** The last entry that the body of the loop pushes names the value. *)
Lemma segmentMatched_last this groupId segment r x t :
  segmentMatched murmurhash_v3 otherDigits this groupId segment r
  = Normal (x, t) ->
  exists init printed,
    toString otherDigits x = Normal printed
    /\ t = (init ++ ["Final value from segment: " +:+ printed])%list.
Proof.
  unfold segmentMatched, evaluateRollout, print, lift, bind, push, ret.
  destruct (Segment.rollout segment) as [rollout|]; simpl.
  - destruct (lessThan _ _); decidePrints; simpl; try discriminate;
      intros [= <- <-]; lastEntry.
  - decidePrints; simpl; try discriminate; intros [= <- <-]; lastEntry.
Qed.

Lemma segmentMatched_same_user this this' groupId segment :
  FeatureManager.userId this' = FeatureManager.userId this ->
  segmentMatched murmurhash_v3 otherDigits this' groupId segment
  = segmentMatched murmurhash_v3 otherDigits this groupId segment.
Proof. intros Hid. unfold segmentMatched. now rewrite Hid. Qed.

(** How the code after the loop ends. *)
Lemma evaluateDefault_outcome this groupId feature r :
  exists t,
    evaluateDefault murmurhash_v3 otherDigits this groupId feature r
    = match valueOutcome otherDigits (bucketOf this groupId)
              (Feature.rollout feature) (Feature.value feature) with
      | Normal x => Normal (x, t)
      | Throw e => Throw e
      end.
Proof.
  unfold evaluateDefault, evaluateRollout, valueOutcome, rolloutChoice,
    secondaryValues, prints, print, lift, bind, push, ret.
  destruct (Feature.rollout feature) as [rollout|]; simpl.
  - destruct (lessThan _ _); decidePrints; simpl; eauto.
  - decidePrints; simpl; eauto.
Qed.

Lemma evaluateDefault_last this groupId feature r x t :
  evaluateDefault murmurhash_v3 otherDigits this groupId feature r
  = Normal (x, t) ->
  exists init printed,
    toString otherDigits x = Normal printed
    /\ t = (init ++ ["Final value: " +:+ printed])%list.
Proof.
  unfold evaluateDefault, evaluateRollout, print, lift, bind, push, ret.
  destruct (Feature.rollout feature) as [rollout|]; simpl.
  - destruct (lessThan _ _); decidePrints; simpl; try discriminate;
      intros [= <- <-]; lastEntry.
  - decidePrints; simpl; try discriminate; intros [= <- <-]; lastEntry.
Qed.

(** The loop over the segments stops at the first one that matches; the
    segments after it are not looked at. *)
Lemma evaluateSegments_first_match this groupId pre segment r :
  Forall (declines (FeatureManager.userAttributes this)) pre ->
  accepts (FeatureManager.userAttributes this) segment ->
  exists t, forall post,
    evaluateSegments murmurhash_v3 otherDigits this groupId
      (pre ++ segment :: post) r
    = bind (segmentMatched murmurhash_v3 otherDigits this groupId segment)
        (fun finalValue => ret (Some finalValue)) t.
Proof.
  intros Hpre [pushed Hacc]. revert r.
  induction Hpre as [|declined pre [pushed' Hdec] _ IH]; intros r.
  - exists (r ++ pushed)%list. intros post. simpl. unfold bind at 1.
    now rewrite (framed_matchSegment _ _ r), Hacc.
  - destruct (IH ((r ++ pushed') ++
                  ["Segment did not match: "
                   +:+ JSON_stringify otherDigits (Segment.combo declined)])%list)
      as [t Ht].
    exists t. intros post. simpl. unfold bind at 1.
    rewrite (framed_matchSegment _ _ r), Hdec. simpl.
    unfold bind at 1, push at 1. apply Ht.
Qed.

(** The evaluation reads the user of the manager, not its feature map. *)
Lemma evaluateSegments_same_user this this' groupId segments :
  FeatureManager.userId this' = FeatureManager.userId this ->
  FeatureManager.userAttributes this' = FeatureManager.userAttributes this ->
  evaluateSegments murmurhash_v3 otherDigits this' groupId segments
  = evaluateSegments murmurhash_v3 otherDigits this groupId segments.
Proof.
  intros Hid Hattrs.
  induction segments as [|segment segments IH]; simpl; [reflexivity|].
  now rewrite Hattrs, IH, (segmentMatched_same_user this this' _ _ Hid).
Qed.

Lemma first_accepting_segment userAttributes segments :
  Forall declared segments ->
  Exists (accepts userAttributes) segments ->
  exists pre segment post,
    segments = (pre ++ segment :: post)%list
    /\ Forall (declines userAttributes) pre
    /\ accepts userAttributes segment.
Proof.
  induction 1 as [|head segments Hhead _ IH]; intros Hex.
  - inversion Hex.
  - destruct (declared_accepts_or_declines userAttributes head Hhead)
      as [Hacc|Hdec].
    + exists [], head, segments. auto.
    + inversion Hex as [? ? Hacc|? ? Hlater]; subst.
      * destruct Hacc as [p Hp], Hdec as [q Hq]. congruence.
      * destruct (IH Hlater) as (pre & segment & post & -> & Hpre & Hacc).
        exists (head :: pre), segment, post. auto.
Qed.

(** The evaluation of a feature with a first matching segment ends as that
    segment has it end, for every manager with the same user and every
    feature with the same segments up to that one. *)
Lemma getFeatureValue_first_match this groupId pre segment featureId :
  Forall (declines (FeatureManager.userAttributes this)) pre ->
  accepts (FeatureManager.userAttributes this) segment ->
  exists t,
    forall this' feature' post',
      FeatureManager.userId this' = FeatureManager.userId this ->
      FeatureManager.userAttributes this'
      = FeatureManager.userAttributes this ->
      FeatureManager.featureMap this' !! featureId
      = Some (feature', groupId) ->
      Feature.segments feature' = (pre ++ segment :: post')%list ->
      getFeatureValue murmurhash_v3 otherDigits this' featureId
      = match valueOutcome otherDigits (bucketOf this groupId)
                (Segment.rollout segment) (Segment.value segment) with
        | Normal x =>
            Normal {| FeatureEvaluationResult.value := x;
                      FeatureEvaluationResult.reasoning := t |}
        | Throw e => Throw e
        end.
Proof.
  intros Hpre Hacc.
  destruct (evaluateSegments_first_match this groupId pre segment [] Hpre Hacc)
    as [t0 Hloop].
  destruct (segmentMatched_outcome this groupId segment t0) as [t Hbody].
  exists t. intros this' feature' post' Hid Hattrs Hentry Hsegs.
  unfold getFeatureValue, evaluateFeature. rewrite Hentry, Hsegs.
  rewrite (evaluateSegments_same_user this this') by assumption.
  unfold bind at 1. rewrite Hloop. unfold bind at 1. rewrite Hbody.
  now destruct (valueOutcome _ _ _ _).
Qed.

(** C5, as the code has it.  When a segment of a feature matches the user
    and the segments before it are turned down without an exception, as
    all segments with a combo of the declared type are, the evaluation
    returns the value of that segment, or the secondary value of its
    rollout, provided these values can be printed.  The result, value and
    reasoning, is the same for every feature that starts with the same
    segments up to that one: the later segments, the default value and the
    rollout of the feature take no part in it. *)
Theorem first_match_wins (this : FeatureManager.t) (featureId : string)
    (feature : Feature.t) (groupId : string)
    (pre : list Segment.t) (segment : Segment.t) (post : list Segment.t) :
  FeatureManager.featureMap this !! featureId = Some (feature, groupId) ->
  Feature.segments feature = (pre ++ segment :: post)%list ->
  Forall (declines (FeatureManager.userAttributes this)) pre ->
  accepts (FeatureManager.userAttributes this) segment ->
  printable (Segment.value segment) ->
  printableRollout (Segment.rollout segment) ->
  exists result,
    getFeatureValue murmurhash_v3 otherDigits this featureId = Normal result
    /\ FeatureEvaluationResult.value result
       = rolloutChoice (bucketOf this groupId)
           (Segment.rollout segment) (Segment.value segment)
    /\ (FeatureEvaluationResult.value result = Segment.value segment
        \/ exists rollout,
             Segment.rollout segment = Some rollout
             /\ FeatureEvaluationResult.value result
                = Rollout.secondaryValue rollout)
    /\ forall this' feature' post',
         FeatureManager.userId this' = FeatureManager.userId this ->
         FeatureManager.userAttributes this'
         = FeatureManager.userAttributes this ->
         FeatureManager.featureMap this' !! featureId
         = Some (feature', groupId) ->
         Feature.segments feature' = (pre ++ segment :: post')%list ->
         getFeatureValue murmurhash_v3 otherDigits this' featureId
         = Normal result.
Proof.
  intros Hentry Hsegs Hpre Hacc Hvalue Hrollout.
  destruct (getFeatureValue_first_match this groupId pre segment featureId
              Hpre Hacc) as [t Hall].
  rewrite (valueOutcome_printable otherDigits _ _ _ Hvalue Hrollout) in Hall.
  eexists. split; [|split; [|split]].
  - apply (Hall this feature post); auto.
  - reflexivity.
  - simpl. unfold rolloutChoice.
    destruct (Segment.rollout segment) as [rollout|]; [|now left].
    destruct (lessThan _ _); [now left|right; eauto].
  - intros this' feature' post' Hid Hattrs Hentry' Hsegs'.
    now apply (Hall this' feature' post').
Qed.

(** C2, as the code has it.  A feature without segments and without a
    rollout, whose default value can be printed, evaluates to that value,
    and the reasoning has exactly three entries: no segment matched, no
    rollout applied, the final value. *)
Theorem default_fallback (this : FeatureManager.t) (featureId : string)
    (feature : Feature.t) (groupId : string) (printed : string) :
  FeatureManager.featureMap this !! featureId = Some (feature, groupId) ->
  Feature.segments feature = [] ->
  Feature.rollout feature = None ->
  toString otherDigits (Feature.value feature) = Normal printed ->
  exists result,
    getFeatureValue murmurhash_v3 otherDigits this featureId = Normal result
    /\ FeatureEvaluationResult.value result = Feature.value feature
    /\ FeatureEvaluationResult.reasoning result
       = [ "No segments matched. Using default value.";
           "No feature-level rollout applied.";
           "Final value: " +:+ printed ]
    /\ length (FeatureEvaluationResult.reasoning result) = 3%nat.
Proof.
  intros Hentry Hsegs Hrollout Hprinted.
  unfold getFeatureValue, evaluateFeature, evaluateDefault.
  rewrite Hentry, Hsegs, Hrollout. simpl.
  unfold print, lift, bind, push, ret; simpl. rewrite Hprinted.
  eexists. repeat split.
Qed.

(** C6.  A feature id that the feature map does not hold makes the
    evaluation throw the error that names the id; there is no result, and
    so no reasoning, for the caller. *)
Theorem unknown_feature_throws (config : FeatureConfig.t) (userId : string)
    (userAttributes : UserAttributes) (featureId : string) :
  FeatureManager.featureMap (constructor config userId userAttributes)
    !! featureId = None ->
  getFeatureValue murmurhash_v3 otherDigits
    (constructor config userId userAttributes) featureId
  = Throw (Error ("Feature with id " +:+ quoted featureId +:+ " not found."))
  /\ forall result,
       getFeatureValue murmurhash_v3 otherDigits
         (constructor config userId userAttributes) featureId
       <> Normal result.
Proof.
  intros Habsent. unfold getFeatureValue. rewrite Habsent.
  split; [reflexivity|discriminate].
Qed.

(** C9.  A combo without keys matches every user, and a segment with such a
    combo in first place decides the evaluation of its feature: the
    evaluation ends the same way whatever follows the segment and whatever
    the default of the feature, a value that it returns is the segment's or
    the secondary value of the segment's rollout, and it returns one when
    these values can be printed. *)
Theorem empty_combo_always_matches
    (userAttributes : UserAttributes) (reasoning : list string) :
  matchSegment (JObj []) userAttributes reasoning = Normal (true, reasoning)
  /\ forall this featureId feature groupId segment rest,
       FeatureManager.featureMap this !! featureId = Some (feature, groupId) ->
       Feature.segments feature = segment :: rest ->
       Segment.combo segment = JObj [] ->
       (forall this' feature' rest',
          FeatureManager.userId this' = FeatureManager.userId this ->
          FeatureManager.featureMap this' !! featureId
          = Some (feature', groupId) ->
          Feature.segments feature' = segment :: rest' ->
          getFeatureValue murmurhash_v3 otherDigits this' featureId
          = getFeatureValue murmurhash_v3 otherDigits this featureId)
       /\ (forall result,
             getFeatureValue murmurhash_v3 otherDigits this featureId
             = Normal result ->
             FeatureEvaluationResult.value result
             = rolloutChoice (bucketOf this groupId)
                 (Segment.rollout segment) (Segment.value segment))
       /\ (printable (Segment.value segment) ->
           printableRollout (Segment.rollout segment) ->
           exists result,
             getFeatureValue murmurhash_v3 otherDigits this featureId
             = Normal result).
Proof.
  split; [reflexivity|].
  intros this featureId feature groupId segment rest Hentry Hsegs Hcombo.
  assert (Hall : forall this' feature' rest',
            FeatureManager.userId this' = FeatureManager.userId this ->
            FeatureManager.featureMap this' !! featureId
            = Some (feature', groupId) ->
            Feature.segments feature' = segment :: rest' ->
            getFeatureValue murmurhash_v3 otherDigits this' featureId
            = match segmentMatched murmurhash_v3 otherDigits this groupId
                      segment [] with
              | Normal (x, t) =>
                  Normal {| FeatureEvaluationResult.value := x;
                            FeatureEvaluationResult.reasoning := t |}
              | Throw e => Throw e
              end).
  { intros this' feature' rest' Hid Hentry' Hsegs'.
    unfold getFeatureValue, evaluateFeature. rewrite Hentry', Hsegs'.
    simpl evaluateSegments. rewrite Hcombo.
    rewrite (segmentMatched_same_user this this' _ _ Hid).
    unfold bind, ret; simpl.
    now destruct (segmentMatched _ _ this groupId segment []) as [[x t]|e]. }
  pose proof (Hall this feature rest eq_refl Hentry Hsegs) as Hthis.
  destruct (segmentMatched_outcome this groupId segment []) as [t Hbody].
  rewrite Hbody in Hthis.
  split; [|split].
  - intros this' feature' rest' Hid Hentry' Hsegs'.
    rewrite Hthis, (Hall this' feature' rest' Hid Hentry' Hsegs'), Hbody.
    reflexivity.
  - intros result. rewrite Hthis.
    destruct (valueOutcome _ _ _ _) as [x|e] eqn:Houtcome; [|discriminate].
    intros [= <-]. simpl. now apply valueOutcome_Normal in Houtcome.
  - intros Hvalue Hrollout. rewrite Hthis.
    rewrite (valueOutcome_printable otherDigits _ _ _ Hvalue Hrollout). eauto.
Qed.

End Orchestrator.

Lemma printable_JStr s : printable (JStr s).
Proof. intros otherDigits. exists s. reflexivity. Qed.

Lemma first_match_wins_witness :
  exists result,
    getFeatureValue murmur3 noOtherDigits tieredManager "f5" = Normal result
    /\ FeatureEvaluationResult.value result
       = rolloutChoice
           (hashUser murmur3 (FeatureManager.userId tieredManager) "g1")
           (Some {| Rollout.percentage := 50;
                    Rollout.secondaryValue := JStr "half" |})
           (JStr "full")
    /\ (FeatureEvaluationResult.value result = JStr "full"
        \/ exists rollout,
             Some {| Rollout.percentage := 50;
                     Rollout.secondaryValue := JStr "half" |} = Some rollout
             /\ FeatureEvaluationResult.value result
                = Rollout.secondaryValue rollout)
    /\ forall this' feature' post',
         FeatureManager.userId this' = FeatureManager.userId tieredManager ->
         FeatureManager.userAttributes this'
         = FeatureManager.userAttributes tieredManager ->
         FeatureManager.featureMap this' !! "f5" = Some (feature', "g1") ->
         Feature.segments feature'
         = ([planSegment "free" "basic"]
            ++ {| Segment.combo :=
                    comboOf [("plan", ["pro"]); ("region", ["!EU"])];
                  Segment.value := JStr "full";
                  Segment.rollout :=
                    Some {| Rollout.percentage := 50;
                            Rollout.secondaryValue := JStr "half" |} |}
            :: post')%list ->
         getFeatureValue murmur3 noOtherDigits this' "f5" = Normal result.
Proof.
  apply (first_match_wins murmur3 noOtherDigits tieredManager "f5"
           tieredFeature "g1" [planSegment "free" "basic"]
           {| Segment.combo :=
                comboOf [("plan", ["pro"]); ("region", ["!EU"])];
              Segment.value := JStr "full";
              Segment.rollout :=
                Some {| Rollout.percentage := 50;
                        Rollout.secondaryValue := JStr "half" |} |}
           [ planSegment "pro" "fallback";
             {| Segment.combo := JUndefined; Segment.value := JStr "broken";
                Segment.rollout := None |} ]).
  - reflexivity.
  - reflexivity.
  - repeat constructor.
    exists ["No matching value for attribute " +:+ quoted "plan"
            +:+ ". Segment does not match."].
    reflexivity.
  - exists []. reflexivity.
  - apply printable_JStr.
  - apply printable_JStr.
Defined.

(** C5 as stated fails: the second segment of the feature matches every
    user, and the evaluation returns no value, since the first segment has
    no combo and the matcher throws on it. *)
Lemma first_match_wins_counterexample :
  In openSegment (Feature.segments shadowedFeature)
  /\ accepts (FeatureManager.userAttributes shadowedManager) openSegment
  /\ FeatureManager.featureMap shadowedManager !! "f7"
     = Some (shadowedFeature, "g1")
  /\ getFeatureValue murmur3 noOtherDigits shadowedManager "f7"
     = Throw TypeError
  /\ ~ (exists result,
          getFeatureValue murmur3 noOtherDigits shadowedManager "f7"
          = Normal result).
Proof.
  repeat apply conj.
  - simpl. auto.
  - exists []. reflexivity.
  - reflexivity.
  - reflexivity.
  - intros [result H]. vm_compute in H. discriminate.
Qed.

Lemma default_fallback_witness :
  exists result,
    getFeatureValue murmur3 noOtherDigits
      (constructor exampleConfig "alice" ∅) "f2"
    = Normal result
    /\ FeatureEvaluationResult.value result = Feature.value plainFeature
    /\ FeatureEvaluationResult.reasoning result
       = [ "No segments matched. Using default value.";
           "No feature-level rollout applied.";
           "Final value: " +:+ "off" ]
    /\ length (FeatureEvaluationResult.reasoning result) = 3%nat.
Proof.
  apply (default_fallback murmur3 noOtherDigits
           (constructor exampleConfig "alice" ∅) "f2" plainFeature "g1" "off");
    reflexivity.
Defined.

(** C2 as stated fails: the reasoning of such a feature does not have two
    entries. *)
Lemma default_fallback_counterexample :
  ~ (exists result,
       getFeatureValue murmur3 noOtherDigits
         (constructor exampleConfig "alice" ∅) "f2"
       = Normal result
       /\ FeatureEvaluationResult.value result = Feature.value plainFeature
       /\ length (FeatureEvaluationResult.reasoning result) = 2%nat).
Proof.
  intros (result & Hresult & _ & Hlength).
  vm_compute in Hresult. injection Hresult as <-. discriminate.
Qed.

Lemma unknown_feature_throws_witness :
  getFeatureValue murmur3 noOtherDigits
    (constructor exampleConfig "alice" ∅) "f9"
  = Throw (Error ("Feature with id " +:+ quoted "f9" +:+ " not found."))
  /\ forall result,
       getFeatureValue murmur3 noOtherDigits
         (constructor exampleConfig "alice" ∅) "f9"
       <> Normal result.
Proof.
  apply (unknown_feature_throws murmur3 noOtherDigits exampleConfig "alice" ∅
           "f9").
  reflexivity.
Defined.

Lemma empty_combo_always_matches_witness :
  (forall this' feature' rest',
     FeatureManager.userId this' = FeatureManager.userId openManager ->
     FeatureManager.featureMap this' !! "f3" = Some (feature', "g2") ->
     Feature.segments feature' = openSegment :: rest' ->
     getFeatureValue murmur3 noOtherDigits this' "f3"
     = getFeatureValue murmur3 noOtherDigits openManager "f3")
  /\ (forall result,
        getFeatureValue murmur3 noOtherDigits openManager "f3"
        = Normal result ->
        FeatureEvaluationResult.value result
        = rolloutChoice
            (hashUser murmur3 (FeatureManager.userId openManager) "g2")
            (Segment.rollout openSegment) (Segment.value openSegment))
  /\ (printable (Segment.value openSegment) ->
      printableRollout (Segment.rollout openSegment) ->
      exists result,
        getFeatureValue murmur3 noOtherDigits openManager "f3"
        = Normal result).
Proof.
  apply (proj2 (empty_combo_always_matches murmur3 noOtherDigits ∅ [])
           openManager "f3" openFeature "g2" openSegment [exampleSegment]).
  - reflexivity.
  - reflexivity.
  - reflexivity.
Defined.

(** ** Exceptions *)

Section Exceptions.

Variable murmurhash_v3 : string -> Z.
Variable otherDigits : Q -> string.

Lemma segmentMatched_throws this groupId segment r e :
  segmentMatched murmurhash_v3 otherDigits this groupId segment r = Throw e ->
  e = TypeError.
Proof.
  destruct (segmentMatched_outcome murmurhash_v3 otherDigits this groupId
              segment r) as [t ->].
  destruct (valueOutcome _ _ _ _) as [x|e'] eqn:Houtcome; [discriminate|].
  intros [= <-]. now apply valueOutcome_Throw in Houtcome.
Qed.

Lemma evaluateSegments_throws this groupId segments r e :
  evaluateSegments murmurhash_v3 otherDigits this groupId segments r
  = Throw e ->
  e = TypeError.
Proof.
  revert r.
  induction segments as [|segment segments IH]; intros r; simpl.
  - unfold ret. discriminate.
  - unfold bind at 1.
    destruct (matchSegment (Segment.combo segment)
                (FeatureManager.userAttributes this) r)
      as [[[|] t]|e'] eqn:Hmatch.
    + unfold bind.
      destruct (segmentMatched murmurhash_v3 otherDigits this groupId
                  segment t) as [[x t']|e'] eqn:Hbody.
      * unfold ret. discriminate.
      * intros [= <-]. now apply segmentMatched_throws in Hbody.
    + unfold bind at 1, push at 1. apply IH.
    + intros [= <-]. now apply matchSegment_throws in Hmatch.
Qed.

Lemma evaluateDefault_throws this groupId feature r e :
  evaluateDefault murmurhash_v3 otherDigits this groupId feature r = Throw e ->
  e = TypeError.
Proof.
  destruct (evaluateDefault_outcome murmurhash_v3 otherDigits this groupId
              feature r) as [t ->].
  destruct (valueOutcome _ _ _ _) as [x|e'] eqn:Houtcome; [discriminate|].
  intros [= <-]. now apply valueOutcome_Throw in Houtcome.
Qed.

Lemma evaluateFeature_throws this groupId feature r e :
  evaluateFeature murmurhash_v3 otherDigits this groupId feature r = Throw e ->
  e = TypeError.
Proof.
  unfold evaluateFeature, bind at 1.
  destruct (evaluateSegments murmurhash_v3 otherDigits this groupId
              (Feature.segments feature) r) as [[[v|] t]|e'] eqn:Hsegs.
  - unfold ret. discriminate.
  - apply evaluateDefault_throws.
  - intros [= <-]. now apply evaluateSegments_throws in Hsegs.
Qed.

(** The loop over the segments ends with the exception of the first segment
    whose match throws, when the segments before it were turned down. *)
Lemma evaluateSegments_stops_at_throw this groupId pre segment post r e :
  Forall (declines (FeatureManager.userAttributes this)) pre ->
  matchSegment (Segment.combo segment) (FeatureManager.userAttributes this) []
  = Throw e ->
  evaluateSegments murmurhash_v3 otherDigits this groupId
    (pre ++ segment :: post) r
  = Throw e.
Proof.
  intros Hpre Hthrow. revert r.
  induction Hpre as [|declined pre [pushed Hdec] _ IH]; intros r; simpl.
  - unfold bind at 1. now rewrite (framed_matchSegment _ _ r), Hthrow.
  - unfold bind at 1. rewrite (framed_matchSegment _ _ r), Hdec. simpl.
    unfold bind at 1, push at 1. apply IH.
Qed.

(** A key that fails ends the match: the keys after it are not read. *)
Lemma matchEntries_app_false pre post userAttributes r t :
  matchEntries pre userAttributes r = Normal (false, t) ->
  matchEntries (pre ++ post) userAttributes r = Normal (false, t).
Proof.
  revert r.
  induction pre as [|[attributeKey values] pre IH]; intros r; simpl.
  - unfold ret. discriminate.
  - caseAttribute userAttributes attributeKey; auto;
      (destruct (iterate values) as [tokens|e]; [|auto];
       unfold bind;
       destruct (matchValues attributeKey _ tokens false r)
         as [[[result|[|]] u]|e]; auto).
Qed.

(** The keys before a key are read the same whatever stands behind them. *)
Lemma matchEntries_app_same pre post post' userAttributes :
  (forall r, matchEntries post userAttributes r
             = matchEntries post' userAttributes r) ->
  forall r, matchEntries (pre ++ post) userAttributes r
            = matchEntries (pre ++ post') userAttributes r.
Proof.
  intros Hsame.
  induction pre as [|[attributeKey values] pre IH]; intros r; simpl.
  - apply Hsame.
  - caseAttribute userAttributes attributeKey; auto;
      (destruct (iterate values) as [tokens|e]; [|auto];
       unfold bind;
       destruct (matchValues attributeKey _ tokens false r)
         as [[[result|[|]] u]|e]; auto).
Qed.

(** C10.  Of the features of one id, the feature map keeps the one that
    comes last in the document, with the id of its group; evaluating the id
    evaluates that feature for that group, and no error is thrown on
    account of the earlier ones. *)
Theorem duplicate_feature_id_last_wins (config : FeatureConfig.t)
    (userId : string) (userAttributes : UserAttributes)
    (pre post : list (Feature.t * string)) (feature : Feature.t)
    (groupId : string) :
  featureEntries config = (pre ++ (feature, groupId) :: post)%list ->
  Forall (fun later => Feature.id (fst later) <> Feature.id feature) post ->
  let this := constructor config userId userAttributes in
  FeatureManager.featureMap this !! Feature.id feature
  = Some (feature, groupId)
  /\ getFeatureValue murmurhash_v3 otherDigits this (Feature.id feature)
     = match evaluateFeature murmurhash_v3 otherDigits this groupId feature []
       with
       | Normal (finalValue, reasoning) =>
           Normal {| FeatureEvaluationResult.value := finalValue;
                     FeatureEvaluationResult.reasoning := reasoning |}
       | Throw e => Throw e
       end
  /\ forall message,
       getFeatureValue murmurhash_v3 otherDigits this (Feature.id feature)
       <> Throw (Error message).
Proof.
  intros Hentries Hpost this.
  assert (Hlookup : FeatureManager.featureMap this !! Feature.id feature
                    = Some (feature, groupId)).
  { unfold this. rewrite constructor_featureMap, Hentries.
    apply (setAll_last pre (feature, groupId) post ∅ Hpost). }
  split; [exact Hlookup|].
  unfold getFeatureValue. rewrite Hlookup.
  split; [reflexivity|].
  intros message.
  destruct (evaluateFeature murmurhash_v3 otherDigits this groupId feature [])
    as [[finalValue reasoning]|e] eqn:Heval; [discriminate|].
  apply evaluateFeature_throws in Heval as ->. discriminate.
Qed.

(** C7, as the code has it.  The matcher does not guard against match data
    that is not of the declared type.  Without a combo it throws a
    [TypeError], and so does the evaluation of a feature once it reaches
    such a segment: the later segments and the default are not used.  A key
    whose value cannot be iterated, standing behind keys that the user
    satisfies, makes the matcher return [false] when the attribute object
    gives no value, or the empty string, for the key, and throw a
    [TypeError] when it gives one, its own or an inherited one; behind a
    key that fails, the key is not read.  A key whose value is a string has
    the characters of the string for tokens. *)
Theorem malformed_combo_throws :
  (forall combo userAttributes reasoning,
     combo = JUndefined \/ combo = JNull ->
     matchSegment combo userAttributes reasoning = Throw TypeError)
  /\ (forall this featureId feature groupId pre segment post,
        FeatureManager.featureMap this !! featureId = Some (feature, groupId) ->
        Feature.segments feature = (pre ++ segment :: post)%list ->
        Forall (declines (FeatureManager.userAttributes this)) pre ->
        Segment.combo segment = JUndefined \/ Segment.combo segment = JNull ->
        getFeatureValue murmurhash_v3 otherDigits this featureId
        = Throw TypeError)
  /\ (forall (userAttributes : UserAttributes) pre attributeKey values rest
        reasoning,
        notIterable values ->
        matchSegment (JObj pre) userAttributes reasoning
        = Normal (true, reasoning) ->
        getAttribute userAttributes attributeKey = None
        \/ getAttribute userAttributes attributeKey = Some (Text EmptyString) ->
        matchSegment (JObj (pre ++ (attributeKey, values) :: rest))
          userAttributes reasoning
        = Normal (false, (reasoning ++ [notPresent attributeKey])%list))
  /\ (forall (userAttributes : UserAttributes) pre attributeKey values rest
        reasoning userValue,
        notIterable values ->
        matchSegment (JObj pre) userAttributes reasoning
        = Normal (true, reasoning) ->
        getAttribute userAttributes attributeKey = Some userValue ->
        userValue <> Text EmptyString ->
        matchSegment (JObj (pre ++ (attributeKey, values) :: rest))
          userAttributes reasoning
        = Throw TypeError)
  /\ (forall (userAttributes : UserAttributes) pre rest reasoning pushed,
        matchSegment (JObj pre) userAttributes reasoning
        = Normal (false, pushed) ->
        matchSegment (JObj (pre ++ rest)) userAttributes reasoning
        = Normal (false, pushed))
  /\ (forall (userAttributes : UserAttributes) pre attributeKey s rest
        reasoning,
        matchSegment (JObj (pre ++ (attributeKey, JStr s) :: rest))
          userAttributes reasoning
        = matchSegment
            (JObj (pre ++ (attributeKey, JArr (map JStr (chars s))) :: rest))
            userAttributes reasoning).
Proof.
  repeat apply conj.
  - intros combo userAttributes reasoning [-> | ->]; reflexivity.
  - intros this featureId feature groupId pre segment post
      Hentry Hsegs Hpre Hcombo.
    unfold getFeatureValue, evaluateFeature. rewrite Hentry, Hsegs.
    unfold bind.
    rewrite (evaluateSegments_stops_at_throw this groupId pre segment post []
               TypeError Hpre); [reflexivity|].
    destruct Hcombo as [-> | ->]; reflexivity.
  - intros userAttributes pre attributeKey values rest reasoning _ Hpre H.
    unfold matchSegment in *; simpl in *.
    apply (matchEntries_app_true pre ((attributeKey, values) :: rest)) in Hpre
      as [_ ->].
    simpl. destruct H as [-> | ->]; reflexivity.
  - intros userAttributes pre attributeKey values rest reasoning userValue
      Hvalues Hpre Hvalue Hnonempty.
    unfold matchSegment in *; simpl in *.
    apply (matchEntries_app_true pre ((attributeKey, values) :: rest)) in Hpre
      as [_ ->].
    simpl. rewrite Hvalue.
    destruct userValue as [[|a text]|]; [congruence| |];
      destruct values; simpl in Hvalues; try contradiction; reflexivity.
  - intros userAttributes pre rest reasoning pushed.
    unfold matchSegment; simpl. apply matchEntries_app_false.
  - intros userAttributes pre attributeKey s rest reasoning.
    unfold matchSegment; simpl. apply matchEntries_app_same.
    intros r. reflexivity.
Qed.

End Exceptions.

Lemma duplicate_feature_id_last_wins_witness :
  let this := constructor duplicateConfig "alice" ∅ in
  FeatureManager.featureMap this !! Feature.id laterFeature
  = Some (laterFeature, "g2")
  /\ getFeatureValue murmur3 noOtherDigits this (Feature.id laterFeature)
     = match evaluateFeature murmur3 noOtherDigits this "g2" laterFeature []
       with
       | Normal (finalValue, reasoning) =>
           Normal {| FeatureEvaluationResult.value := finalValue;
                     FeatureEvaluationResult.reasoning := reasoning |}
       | Throw e => Throw e
       end
  /\ forall message,
       getFeatureValue murmur3 noOtherDigits this (Feature.id laterFeature)
       <> Throw (Error message).
Proof.
  apply (duplicate_feature_id_last_wins murmur3 noOtherDigits duplicateConfig
           "alice" ∅
           [(exampleFeature, "g1"); (plainFeature, "g1")] [] laterFeature "g2").
  - reflexivity.
  - constructor.
Defined.

Lemma malformed_combo_throws_witness :
  matchSegment JUndefined {[ "region" := "CA" ]} [] = Throw TypeError
  /\ getFeatureValue murmur3 noOtherDigits brokenManager "f4" = Throw TypeError
  /\ matchSegment (JObj [("plan", JArr [JStr "pro"]); ("region", JNum 3)])
       {[ "plan" := "pro" ]} []
     = Normal (false, [notPresent "region"])
  /\ matchSegment (JObj [("plan", JArr [JStr "pro"]); ("region", JNum 3)])
       (<[ "plan" := "pro" ]> {[ "region" := "CA" ]}) []
     = Throw TypeError
  /\ matchSegment (JObj [("plan", JArr [JStr "pro"]); ("valueOf", JNum 3)])
       {[ "plan" := "pro" ]} []
     = Throw TypeError.
Proof.
  destruct (malformed_combo_throws murmur3 noOtherDigits)
    as (Habsent & Hevaluation & Hwithout & Hvalue & _ & _).
  repeat apply conj.
  - apply Habsent. now left.
  - apply (Hevaluation brokenManager "f4" brokenFeature "g1" []
             {| Segment.combo := JUndefined; Segment.value := JStr "on";
                Segment.rollout := None |} []).
    + reflexivity.
    + reflexivity.
    + constructor.
    + now left.
  - apply (Hwithout {[ "plan" := "pro" ]} [("plan", JArr [JStr "pro"])]
             "region" (JNum 3) [] []).
    + exact I.
    + reflexivity.
    + left. reflexivity.
  - apply (Hvalue (<[ "plan" := "pro" ]> {[ "region" := "CA" ]})
             [("plan", JArr [JStr "pro"])] "region" (JNum 3) [] []
             (Text "CA")).
    + exact I.
    + reflexivity.
    + reflexivity.
    + discriminate.
  - apply (Hvalue {[ "plan" := "pro" ]}
             [("plan", JArr [JStr "pro"])] "valueOf" (JNum 3) [] []
             Inherited).
    + exact I.
    + reflexivity.
    + reflexivity.
    + discriminate.
Defined.

(** C7 as stated fails: a segment without a combo, and a key mapped to a
    number for a user who has the attribute, make the matcher throw instead
    of returning [false], and the evaluation of the feature has no
    result. *)
Lemma malformed_combo_counterexample :
  ~ (exists pushed,
       matchSegment JUndefined {[ "region" := "CA" ]} [] = Normal (false, pushed))
  /\ ~ (exists pushed,
          matchSegment (JObj [("region", JNum 3)]) {[ "region" := "CA" ]} []
          = Normal (false, pushed))
  /\ ~ (exists result,
          getFeatureValue murmur3 noOtherDigits brokenManager "f4"
          = Normal result).
Proof.
  repeat apply conj; intros [x H]; vm_compute in H; discriminate.
Qed.

(** ** What an evaluation returns *)

Lemma printable_secondaryValues rollout :
  Forall printable (secondaryValues rollout) -> printableRollout rollout.
Proof.
  destruct rollout as [r|]; simpl; [|auto].
  intros H. now inversion H.
Qed.

Lemma configuredValues_default feature x :
  In x (Feature.value feature :: secondaryValues (Feature.rollout feature)) ->
  In x (configuredValues feature).
Proof. intros Hin. unfold configuredValues. apply in_or_app. now left. Qed.

Lemma configuredValues_segment feature segment x :
  In segment (Feature.segments feature) ->
  In x (Segment.value segment :: secondaryValues (Segment.rollout segment)) ->
  In x (configuredValues feature).
Proof.
  intros Hsegment Hin. unfold configuredValues. apply in_or_app. right.
  apply in_flat_map. eauto.
Qed.

Section MoreOrchestrator.

Variable murmurhash_v3 : string -> Z.
Variable otherDigits : Q -> string.

(** X11.  [getFeatureValue] throws its not-found error for exactly the ids
    that the list of feature ids of the configuration does not hold: an id
    of that list is always evaluated. *)
Theorem not_found_exactly_outside_featuresList (config : FeatureConfig.t)
    (userId : string) (userAttributes : UserAttributes)
    (featureId : string) :
  (exists message,
     getFeatureValue murmurhash_v3 otherDigits
       (constructor config userId userAttributes) featureId
     = Throw (Error message))
  <-> ~ In featureId (featuresList config).
Proof.
  pose proof (featureMap_None config userId userAttributes featureId)
    as Hnone.
  rewrite featuresList_entries. unfold getFeatureValue.
  destruct (FeatureManager.featureMap
              (constructor config userId userAttributes) !! featureId)
    as [[feature groupId]|] eqn:Hlookup.
  - split.
    + intros [message Hthrow].
      destruct (evaluateFeature murmurhash_v3 otherDigits _ groupId feature [])
        as [[finalValue reasoning]|e] eqn:Heval; [discriminate|].
      apply evaluateFeature_throws in Heval as ->. discriminate.
    + intros Hnot. exfalso.
      assert (Hall : Forall (fun entry => Feature.id (fst entry) <> featureId)
                       (featureEntries config)).
      { apply List.Forall_forall. intros entry Hin Heq. apply Hnot.
        apply in_map_iff. eauto. }
      apply Hnone in Hall. discriminate.
  - split; [|eauto].
    intros _ Hin. apply in_map_iff in Hin as (entry & Hid & Hin).
    destruct Hnone as [Hnone _]. specialize (Hnone eq_refl).
    rewrite List.Forall_forall in Hnone. now apply (Hnone entry).
Qed.

(** The loop over segments with combos of the declared type and values that
    can be printed comes to an end without an exception. *)
Lemma evaluateSegments_declared this groupId segments r :
  Forall declared segments ->
  Forall printable
    (flat_map
       (fun segment =>
          Segment.value segment :: secondaryValues (Segment.rollout segment))
       segments) ->
  exists returned t,
    evaluateSegments murmurhash_v3 otherDigits this groupId segments r
    = Normal (returned, t).
Proof.
  intros Hdeclared. revert r.
  induction Hdeclared as [|segment segments [c Hc] _ IH]; intros r Hprintable;
    simpl.
  - unfold ret. eauto.
  - simpl in Hprintable. apply Forall_cons_iff in Hprintable as [Hvalue Hrest].
    apply Forall_app in Hrest as [Hrollout Hrest].
    apply printable_secondaryValues in Hrollout.
    unfold bind at 1. rewrite Hc.
    destruct (matchSegment_declared c (FeatureManager.userAttributes this) r)
      as ([|] & t & ->).
    + unfold bind.
      destruct (segmentMatched_outcome murmurhash_v3 otherDigits this groupId
                  segment t) as [t' ->].
      rewrite (valueOutcome_printable otherDigits _ _ _ Hvalue Hrollout).
      unfold ret. eauto.
    + unfold bind at 1, push at 1. now apply IH.
Qed.

(** What the loop over the segments returns comes from one of them. *)
Lemma evaluateSegments_Some this groupId segments r finalValue t :
  evaluateSegments murmurhash_v3 otherDigits this groupId segments r
  = Normal (Some finalValue, t) ->
  (exists segment,
     In segment segments
     /\ finalValue
        = rolloutChoice
            (hashUser murmurhash_v3 (FeatureManager.userId this) groupId)
            (Segment.rollout segment) (Segment.value segment))
  /\ exists init printed,
       toString otherDigits finalValue = Normal printed
       /\ t = (init ++ ["Final value from segment: " +:+ printed])%list.
Proof.
  revert r.
  induction segments as [|segment segments IH]; intros r; simpl.
  - unfold ret. discriminate.
  - unfold bind at 1.
    destruct (matchSegment (Segment.combo segment)
                (FeatureManager.userAttributes this) r)
      as [[[|] t']|e]; [| |discriminate].
    + unfold bind.
      destruct (segmentMatched murmurhash_v3 otherDigits this groupId
                  segment t') as [[x u]|e] eqn:Hbody; [|discriminate].
      unfold ret. intros [= <- <-]. split.
      * exists segment. split; [now left|].
        destruct (segmentMatched_outcome murmurhash_v3 otherDigits this
                    groupId segment t') as [u' Houtcome].
        rewrite Hbody in Houtcome.
        destruct (valueOutcome _ _ _ _) as [y|e] eqn:Hy; [|discriminate].
        injection Houtcome as -> _.
        now apply valueOutcome_Normal in Hy.
      * now apply segmentMatched_last in Hbody.
    + unfold bind at 1, push at 1. intros Hrest.
      apply IH in Hrest as [(found & Hin & Hvalue) Hlast].
      split; [|exact Hlast]. exists found. split; [now right|exact Hvalue].
Qed.

(** X12.  An evaluation that returns gives a value that the configuration
    holds for the feature: the default, the value of a segment, or the
    secondary value of a rollout of the feature or of a segment.  The last
    entry of the reasoning is the line that names this value. *)
Theorem result_is_configured_and_named (this : FeatureManager.t)
    (featureId : string) (feature : Feature.t) (groupId : string)
    (result : FeatureEvaluationResult.t) :
  FeatureManager.featureMap this !! featureId = Some (feature, groupId) ->
  getFeatureValue murmurhash_v3 otherDigits this featureId = Normal result ->
  In (FeatureEvaluationResult.value result) (configuredValues feature)
  /\ exists init printed,
       toString otherDigits (FeatureEvaluationResult.value result)
       = Normal printed
       /\ (FeatureEvaluationResult.reasoning result
           = (init ++ ["Final value: " +:+ printed])%list
           \/ FeatureEvaluationResult.reasoning result
              = (init ++ ["Final value from segment: " +:+ printed])%list).
Proof.
  intros Hentry. unfold getFeatureValue, evaluateFeature.
  rewrite Hentry. unfold bind at 1.
  destruct (evaluateSegments murmurhash_v3 otherDigits this groupId
              (Feature.segments feature) [])
    as [[[finalValue|] t]|e] eqn:Hsegments; [| |discriminate].
  - unfold ret. intros [= <-]. simpl.
    apply evaluateSegments_Some in Hsegments
      as [(segment & Hin & Hvalue) (init & printed & Hprinted & ->)].
    split; [|eauto 6].
    rewrite Hvalue.
    apply (configuredValues_segment feature segment _ Hin).
    apply rolloutChoice_configured.
  - destruct (evaluateDefault murmurhash_v3 otherDigits this groupId feature t)
      as [[x u]|e] eqn:Hdefault; [|discriminate].
    intros [= <-]. simpl.
    destruct (evaluateDefault_outcome murmurhash_v3 otherDigits this groupId
                feature t) as [u' Houtcome].
    rewrite Hdefault in Houtcome.
    destruct (valueOutcome _ _ _ _) as [y|e] eqn:Hy; [|discriminate].
    injection Houtcome as -> _. apply valueOutcome_Normal in Hy.
    apply evaluateDefault_last in Hdefault
      as (init & printed & Hprinted & ->).
    split; [|eauto 6].
    rewrite Hy. apply configuredValues_default, rolloutChoice_configured.
Qed.

(** X13.  With combos of the declared type, and values that can be
    printed, the evaluation of a feature of the map never throws: it
    returns a value and a reasoning. *)
Theorem declared_feature_is_evaluated (this : FeatureManager.t)
    (featureId : string) (feature : Feature.t) (groupId : string) :
  FeatureManager.featureMap this !! featureId = Some (feature, groupId) ->
  Forall declared (Feature.segments feature) ->
  Forall printable (configuredValues feature) ->
  exists result,
    getFeatureValue murmurhash_v3 otherDigits this featureId = Normal result.
Proof.
  intros Hentry Hdeclared Hprintable.
  unfold configuredValues in Hprintable.
  apply Forall_app in Hprintable as [Hdefault Hsegments].
  apply Forall_cons_iff in Hdefault as [Hvalue Hrollout].
  apply printable_secondaryValues in Hrollout.
  unfold getFeatureValue, evaluateFeature.
  rewrite Hentry. unfold bind at 1.
  destruct (evaluateSegments_declared this groupId (Feature.segments feature)
              [] Hdeclared Hsegments) as ([finalValue|] & t & ->).
  - unfold ret. eauto.
  - destruct (evaluateDefault_outcome murmurhash_v3 otherDigits this groupId
                feature t) as [u ->].
    rewrite (valueOutcome_printable otherDigits _ _ _ Hvalue Hrollout). eauto.
Qed.

End MoreOrchestrator.

Lemma not_found_exactly_outside_featuresList_witness :
  exists message,
    getFeatureValue murmur3 noOtherDigits
      (constructor exampleConfig "alice" ∅) "f9"
    = Throw (Error message).
Proof.
  apply (not_found_exactly_outside_featuresList murmur3 noOtherDigits
           exampleConfig "alice" ∅ "f9").
  simpl. intros [H|[H|[]]]; discriminate.
Defined.

Lemma result_is_configured_and_named_witness :
  In (JBool false) (configuredValues exampleFeature)
  /\ exists init printed,
       toString noOtherDigits (JBool false) = Normal printed
       /\ ([ "Segment matched: {" +:+ quoted "plan" +:+ ":["
               +:+ quoted "pro" +:+ "]}";
             "Evaluating rollout: Hash(alice, g1) = 87, Rollout percentage = 50%";
             "User does not fall within rollout percentage. Using secondary value: false";
             "Segment-level rollout applied: 50% users get true, others get false";
             "Final value from segment: false" ]
           = (init ++ ["Final value: " +:+ printed])%list
           \/ [ "Segment matched: {" +:+ quoted "plan" +:+ ":["
                  +:+ quoted "pro" +:+ "]}";
                "Evaluating rollout: Hash(alice, g1) = 87, Rollout percentage = 50%";
                "User does not fall within rollout percentage. Using secondary value: false";
                "Segment-level rollout applied: 50% users get true, others get false";
                "Final value from segment: false" ]
              = (init ++ ["Final value from segment: " +:+ printed])%list).
Proof.
  apply (result_is_configured_and_named murmur3 noOtherDigits
           (constructor exampleConfig "alice" {[ "plan" := "pro" ]}) "f1"
           exampleFeature "g1"
           {| FeatureEvaluationResult.value := JBool false;
              FeatureEvaluationResult.reasoning :=
                [ "Segment matched: {" +:+ quoted "plan" +:+ ":["
                    +:+ quoted "pro" +:+ "]}";
                  "Evaluating rollout: Hash(alice, g1) = 87, Rollout percentage = 50%";
                  "User does not fall within rollout percentage. Using secondary value: false";
                  "Segment-level rollout applied: 50% users get true, others get false";
                  "Final value from segment: false" ] |}).
  - reflexivity.
  - vm_compute. reflexivity.
Defined.

Lemma printable_JBool b : printable (JBool b).
Proof. intros otherDigits. destruct b; eexists; reflexivity. Qed.

Lemma declared_feature_is_evaluated_witness :
  exists result,
    getFeatureValue murmur3 noOtherDigits
      (constructor exampleConfig "alice" {[ "plan" := "pro" ]}) "f1"
    = Normal result.
Proof.
  apply (declared_feature_is_evaluated murmur3 noOtherDigits
           (constructor exampleConfig "alice" {[ "plan" := "pro" ]}) "f1"
           exampleFeature "g1").
  - reflexivity.
  - repeat constructor. exists [("plan", ["pro"])]. reflexivity.
  - repeat constructor; apply printable_JBool.
Defined.

(** ** The user id *)

Section UserId.

Variable murmurhash_v3 : string -> Z.
Variable otherDigits : Q -> string.

Lemma evaluateSegments_without_rollout this userId groupId segments :
  Forall (fun segment => Segment.rollout segment = None) segments ->
  evaluateSegments murmurhash_v3 otherDigits (setUserId this userId) groupId
    segments
  = evaluateSegments murmurhash_v3 otherDigits this groupId segments.
Proof.
  induction 1 as [|segment segments Hnone _ IH]; simpl; [reflexivity|].
  unfold segmentMatched. now rewrite Hnone, IH.
Qed.

(** X14.  The user id enters the evaluation through the rollouts only: for
    a feature without rollout, on itself or on a segment, the result,
    value and reasoning, is the same after [setUserId] as before. *)
Theorem userId_matters_only_for_rollouts (this : FeatureManager.t)
    (featureId : string) (feature : Feature.t) (groupId : string)
    (userId : string) :
  FeatureManager.featureMap this !! featureId = Some (feature, groupId) ->
  withoutRollout feature ->
  getFeatureValue murmurhash_v3 otherDigits (setUserId this userId) featureId
  = getFeatureValue murmurhash_v3 otherDigits this featureId.
Proof.
  intros Hentry [Hfeature Hsegments].
  unfold getFeatureValue, evaluateFeature, evaluateDefault. simpl.
  rewrite Hentry, Hfeature.
  now rewrite (evaluateSegments_without_rollout this userId groupId _ Hsegments).
Qed.

Lemma evaluateSegments_same_bucket this this' groupId segments r r' :
  FeatureManager.userAttributes this' = FeatureManager.userAttributes this ->
  hashUser murmurhash_v3 (FeatureManager.userId this') groupId
  = hashUser murmurhash_v3 (FeatureManager.userId this) groupId ->
  sameOutcome
    (evaluateSegments murmurhash_v3 otherDigits this groupId segments r)
    (evaluateSegments murmurhash_v3 otherDigits this' groupId segments r').
Proof.
  intros Hattrs Hbucket. revert r r'.
  induction segments as [|segment segments IH]; intros r r'; simpl.
  - reflexivity.
  - unfold bind at 1 4. rewrite Hattrs.
    rewrite (framed_matchSegment _ _ r), (framed_matchSegment _ _ r').
    destruct (matchSegment (Segment.combo segment)
                (FeatureManager.userAttributes this) [])
      as [[[|] t]|e]; simpl; [| |reflexivity].
    + unfold bind.
      destruct (segmentMatched_outcome murmurhash_v3 otherDigits this groupId
                  segment (r ++ t)%list) as [u ->].
      destruct (segmentMatched_outcome murmurhash_v3 otherDigits this' groupId
                  segment (r' ++ t)%list) as [u' ->].
      rewrite Hbucket.
      now destruct (valueOutcome _ _ _ _).
    + unfold bind at 1 2, push at 1 2. apply IH.
Qed.

(** X15.  Two users with the same attributes whose ids fall into the same
    bucket of the group get the same value for every feature of the group
    (or the same exception); their reasonings differ in the lines that
    print the id. *)
Theorem equal_bucket_equal_value (this : FeatureManager.t)
    (featureId : string) (feature : Feature.t) (groupId : string)
    (userId userId' : string) :
  FeatureManager.featureMap this !! featureId = Some (feature, groupId) ->
  hashUser murmurhash_v3 userId' groupId
  = hashUser murmurhash_v3 userId groupId ->
  match getFeatureValue murmurhash_v3 otherDigits (setUserId this userId)
          featureId,
        getFeatureValue murmurhash_v3 otherDigits (setUserId this userId')
          featureId with
  | Normal result, Normal result' =>
      FeatureEvaluationResult.value result
      = FeatureEvaluationResult.value result'
  | Throw e, Throw e' => e = e'
  | _, _ => False
  end.
Proof.
  intros Hentry Hbucket.
  unfold getFeatureValue, evaluateFeature. simpl. rewrite Hentry.
  unfold bind.
  pose proof (evaluateSegments_same_bucket (setUserId this userId)
                (setUserId this userId') groupId (Feature.segments feature)
                [] [] eq_refl Hbucket) as Hsame.
  destruct (evaluateSegments murmurhash_v3 otherDigits (setUserId this userId)
              groupId (Feature.segments feature) []) as [[returned t]|e];
    destruct (evaluateSegments murmurhash_v3 otherDigits
                (setUserId this userId') groupId
                (Feature.segments feature) []) as [[returned' t']|e'];
    simpl in Hsame; try contradiction; [|exact Hsame].
  subst returned'. destruct returned as [finalValue|]; [reflexivity|].
  destruct (evaluateDefault_outcome murmurhash_v3 otherDigits
              (setUserId this userId) groupId feature t) as [u ->].
  destruct (evaluateDefault_outcome murmurhash_v3 otherDigits
              (setUserId this userId') groupId feature t') as [u' ->].
  simpl. rewrite Hbucket.
  now destruct (valueOutcome _ _ _ _).
Qed.

End UserId.

Lemma userId_matters_only_for_rollouts_witness :
  getFeatureValue murmur3 noOtherDigits
    (setUserId (constructor exampleConfig "alice" ∅) "bob") "f2"
  = getFeatureValue murmur3 noOtherDigits
      (constructor exampleConfig "alice" ∅) "f2".
Proof.
  apply (userId_matters_only_for_rollouts murmur3 noOtherDigits
           (constructor exampleConfig "alice" ∅) "f2" plainFeature "g1" "bob").
  - reflexivity.
  - split; [reflexivity|constructor].
Defined.

Lemma equal_bucket_equal_value_witness :
  match getFeatureValue murmur3 noOtherDigits
          (setUserId (constructor exampleConfig EmptyString
                        {[ "plan" := "pro" ]}) "alice") "f1",
        getFeatureValue murmur3 noOtherDigits
          (setUserId (constructor exampleConfig EmptyString
                        {[ "plan" := "pro" ]}) "user10") "f1" with
  | Normal result, Normal result' =>
      FeatureEvaluationResult.value result
      = FeatureEvaluationResult.value result'
  | Throw e, Throw e' => e = e'
  | _, _ => False
  end.
Proof.
  apply (equal_bucket_equal_value murmur3 noOtherDigits
           (constructor exampleConfig EmptyString {[ "plan" := "pro" ]})
           "f1" exampleFeature "g1" "alice" "user10").
  - reflexivity.
  - vm_compute. reflexivity.
Defined.

(** * Properties of the attribute form *)

(** ** Trimming and splitting *)

Lemma append_cons c (a b : string) : String c a +:+ b = String c (a +:+ b).
Proof. reflexivity. Qed.

Lemma append_empty (b : string) : EmptyString +:+ b = b.
Proof. reflexivity. Qed.

Lemma trimEnd_idempotent s : trimEnd (trimEnd s) = trimEnd s.
Proof.
  induction s as [|c s IH]; cbn [trimEnd]; [reflexivity|].
  destruct (trimEnd s) as [|d kept] eqn:Hkept.
  - destruct (isWhiteSpace c) eqn:Hc; cbn [trimEnd]; [reflexivity|].
    now rewrite Hc.
  - change (trimEnd (String c (String d kept))) with
      (match trimEnd (String d kept) with
       | EmptyString =>
           if isWhiteSpace c then EmptyString else String c EmptyString
       | String x y => String c (String x y)
       end).
    now rewrite IH.
Qed.

Lemma trimStart_trimEnd s :
  trimStart (trimEnd (trimStart s)) = trimEnd (trimStart s).
Proof.
  induction s as [|c s IH]; cbn [trimStart trimEnd]; [reflexivity|].
  destruct (isWhiteSpace c) eqn:Hc; [exact IH|].
  cbn [trimEnd].
  destruct (trimEnd s) as [|d kept]; rewrite ?Hc; cbn [trimStart];
    now rewrite Hc.
Qed.

Lemma trim_idempotent s : trim (trim s) = trim s.
Proof. unfold trim. now rewrite trimStart_trimEnd, trimEnd_idempotent. Qed.

Lemma split_nonempty separator s :
  exists first parts, split separator s = first :: parts.
Proof.
  induction s as [|c s (first & parts & IH)]; simpl; [eauto|].
  destruct (Ascii.eqb c separator); [eauto|]. rewrite IH. eauto.
Qed.

Lemma split_without separator s :
  ~ occurs separator s -> split separator s = [s].
Proof.
  unfold occurs. induction s as [|c s IH]; simpl; [reflexivity|].
  intros Hnot. destruct (Ascii.eqb_spec c separator) as [->|Hne].
  - exfalso. apply Hnot. now left.
  - rewrite IH; [reflexivity|]. intros Hin. apply Hnot. now right.
Qed.

Lemma split_append separator a b :
  split separator (a +:+ String separator b)
  = (split separator a ++ split separator b)%list.
Proof.
  induction a as [|c a IH].
  - rewrite append_empty. simpl. now rewrite Ascii.eqb_refl.
  - rewrite append_cons. simpl.
    destruct (Ascii.eqb c separator); [now rewrite IH|].
    rewrite IH.
    destruct (split_nonempty separator a) as (first & parts & ->).
    reflexivity.
Qed.

Lemma split_concat separator part parts :
  Forall (fun p => ~ occurs separator p) (part :: parts) ->
  split separator (String.concat (String separator EmptyString) (part :: parts))
  = part :: parts.
Proof.
  revert part.
  induction parts as [|next parts IH]; intros part Hparts.
  - simpl. apply split_without. now inversion Hparts.
  - inversion Hparts as [|? ? Hpart Hrest]; subst.
    change (String.concat (String separator EmptyString)
              (part :: next :: parts))
      with (part +:+ (String separator EmptyString
                      +:+ String.concat (String separator EmptyString)
                            (next :: parts))).
    rewrite append_cons, append_empty, split_append, (IH next Hrest).
    now rewrite (split_without separator part Hpart).
Qed.

(** ** Parsing the attributes *)

Lemma parseLine_pair userAttributes key value :
  ~ occurs equalsSign key -> ~ occurs equalsSign value ->
  parseLine userAttributes (key +:+ String equalsSign value)
  = match trim key, trim value with
    | String _ _, String _ _ => assign userAttributes (trim key) (trim value)
    | _, _ => userAttributes
    end.
Proof.
  intros Hkey Hvalue. unfold parseLine.
  rewrite split_append, (split_without _ key Hkey),
    (split_without _ value Hvalue). simpl.
  destruct (trim key); [reflexivity|]. now destruct (trim value).
Qed.

Lemma assign_set userAttributes key value :
  key <> "__proto__" ->
  assign userAttributes key value = <[key := value]> userAttributes.
Proof.
  intros Hkey. unfold assign.
  destruct (String.eqb_spec key "__proto__"); [contradiction|reflexivity].
Qed.

Lemma parseLine_keeps_invariant (P : string -> string -> Prop)
    userAttributes line :
  (forall key value, userAttributes !! key = Some value -> P key value) ->
  (forall key value,
     trim key <> EmptyString -> trim value <> EmptyString ->
     trim key <> "__proto__" ->
     P (trim key) (trim value)) ->
  forall key value,
    parseLine userAttributes line !! key = Some value -> P key value.
Proof.
  intros Hmap Hset key value. unfold parseLine.
  destruct (split equalsSign line) as [|k [|v parts]]; simpl;
    try apply Hmap.
  - destruct (trim k); apply Hmap.
  - destruct (trim k) as [|a k'] eqn:Hk; [apply Hmap|].
    destruct (trim v) as [|b v'] eqn:Hv; [apply Hmap|].
    unfold assign.
    destruct (String.eqb_spec (String a k') "__proto__") as [Hproto|Hproto];
      [apply Hmap|].
    destruct (decide (String a k' = key)) as [<-|Hne].
    + rewrite lookup_insert_eq. intros [= <-].
      rewrite <- Hk, <- Hv. apply Hset; congruence.
    + rewrite lookup_insert_ne by assumption. apply Hmap.
Qed.

(** X16.  The attributes that the form hands to the engine never hold an
    empty key or an empty value, and keys and values have no white space at
    their ends: for these attributes the matcher's entry [not present]
    means that the attribute object gives no value for the key.  No
    attribute has the name [__proto__]. *)
Theorem parsed_attributes_are_trimmed_words (attributesInput : string)
    (key value : string) :
  parseAttributes attributesInput !! key = Some value ->
  key <> EmptyString /\ value <> EmptyString
  /\ trim key = key /\ trim value = value
  /\ key <> "__proto__".
Proof.
  unfold parseAttributes.
  generalize (split lineFeed attributesInput). intros lines.
  assert (Hempty : forall k v,
            (∅ : UserAttributes) !! k = Some v ->
            k <> EmptyString /\ v <> EmptyString
            /\ trim k = k /\ trim v = v /\ k <> "__proto__").
  { intros k v. rewrite lookup_empty. discriminate. }
  revert Hempty key value. generalize (∅ : UserAttributes).
  induction lines as [|line lines IH]; intros userAttributes Hmap key value;
    simpl; [apply Hmap|].
  apply IH.
  apply (parseLine_keeps_invariant
           (fun k v => k <> EmptyString /\ v <> EmptyString
                       /\ trim k = k /\ trim v = v /\ k <> "__proto__"));
    [exact Hmap|].
  intros k v Hk Hv Hproto. now rewrite !trim_idempotent.
Qed.

Lemma parsed_attributes_are_trimmed_words_witness :
  "region" <> EmptyString /\ "US" <> EmptyString
  /\ trim "region" = "region" /\ trim "US" = "US"
  /\ "region" <> "__proto__".
Proof.
  apply (parsed_attributes_are_trimmed_words
           (" region = US " +:+ String lineFeed "plan")).
  vm_compute. reflexivity.
Defined.

Lemma parseAttributes_last_line attributesInput line :
  ~ occurs lineFeed line ->
  parseAttributes (attributesInput +:+ String lineFeed line)
  = parseLine (parseAttributes attributesInput) line.
Proof.
  intros Hline. unfold parseAttributes.
  rewrite split_append, (split_without _ line Hline), fold_left_app.
  reflexivity.
Qed.

Lemma occurs_append c a b : occurs c (a +:+ b) <-> occurs c a \/ occurs c b.
Proof.
  unfold occurs. induction a as [|x a IH].
  - rewrite append_empty. simpl. tauto.
  - rewrite append_cons. simpl. rewrite IH. tauto.
Qed.

(** X17.  A last line [key=value] sets the attribute, trimmed, over
    whatever the lines before gave the key; the other attributes stay.
    The key [__proto__] is the exception: a last line with that key sets
    nothing. *)
Theorem last_line_sets_attribute (attributesInput key value : string) :
  ~ occurs equalsSign key -> ~ occurs lineFeed key ->
  ~ occurs equalsSign value -> ~ occurs lineFeed value ->
  trim key <> EmptyString -> trim value <> EmptyString ->
  parseAttributes
    (attributesInput +:+ String lineFeed (key +:+ String equalsSign value))
  = if String.eqb (trim key) "__proto__" then parseAttributes attributesInput
    else <[trim key := trim value]> (parseAttributes attributesInput).
Proof.
  intros Hkey Hkey' Hvalue Hvalue' Htrimmed Htrimmed'.
  assert (Hline : ~ occurs lineFeed (key +:+ String equalsSign value)).
  { rewrite occurs_append. intros [Hin|Hin]; [contradiction|].
    unfold occurs in Hin, Hvalue'. simpl in Hin.
    destruct Hin as [Heq|Hin]; [discriminate|contradiction]. }
  rewrite (parseAttributes_last_line _ _ Hline).
  rewrite parseLine_pair by assumption.
  destruct (trim key); [contradiction|].
  destruct (trim value); [contradiction|reflexivity].
Qed.

(** X18.  A last line without an equals sign is ignored: the attributes are
    those of the lines before it. *)
Theorem line_without_equals_is_ignored (attributesInput line : string) :
  ~ occurs equalsSign line -> ~ occurs lineFeed line ->
  parseAttributes (attributesInput +:+ String lineFeed line)
  = parseAttributes attributesInput.
Proof.
  intros Hequals Hline.
  rewrite parseAttributes_last_line by assumption.
  unfold parseLine. rewrite (split_without _ line Hequals). simpl.
  now destruct (trim line).
Qed.

Lemma fold_parseLine_attributeLine attributes userAttributes :
  Forall (fun kv => plainWord (fst kv) /\ plainWord (snd kv)) attributes ->
  Forall (fun kv => fst kv <> "__proto__") attributes ->
  fold_left parseLine (map attributeLine attributes) userAttributes
  = fold_left (fun m kv => <[fst kv := snd kv]> m) attributes userAttributes.
Proof.
  intros Hplain. revert userAttributes.
  induction Hplain as [|[key value] attributes [Hkey Hvalue] _ IH];
    intros userAttributes Hnames; cbn [map fold_left fst snd]; [reflexivity|].
  apply Forall_cons_iff in Hnames as [Hname Hnames]. cbn [fst] in Hname.
  destruct Hkey as (Hk & Hktrim & Hkeq & _).
  destruct Hvalue as (Hv & Hvtrim & Hveq & _). cbn [fst snd] in *.
  change (attributeLine (key, value))
    with (key +:+ String equalsSign value).
  rewrite parseLine_pair by assumption. rewrite Hktrim, Hvtrim.
  rewrite assign_set by assumption.
  destruct key; [contradiction|]. destruct value; [contradiction|].
  now apply IH.
Qed.

Lemma attributeLine_without_lineFeed kv :
  plainWord (fst kv) /\ plainWord (snd kv) ->
  ~ occurs lineFeed (attributeLine kv).
Proof.
  intros [(_ & _ & _ & Hkey) (_ & _ & _ & Hvalue)].
  unfold attributeLine. rewrite occurs_append.
  intros [Hin|Hin]; [contradiction|].
  unfold occurs in Hin, Hvalue. simpl in Hin.
  destruct Hin as [Heq|Hin]; [discriminate|contradiction].
Qed.

(** X19.  The form reads back what is written in its format: the text
    with one line [key=value] per attribute, keys and values being plain
    words and no key being [__proto__], parses to the map of these
    attributes, a later line winning over an earlier line of the same key.
    With keys that differ, every attribute of the text is in the map. *)
Theorem parseAttributes_reads_attributesText
    (attributes : list (string * string)) :
  Forall (fun kv => plainWord (fst kv) /\ plainWord (snd kv)) attributes ->
  Forall (fun kv => fst kv <> "__proto__") attributes ->
  parseAttributes (attributesText attributes)
  = list_to_map (rev attributes)
  /\ (NoDup (map fst attributes) ->
      forall key value,
        In (key, value) attributes ->
        parseAttributes (attributesText attributes) !! key = Some value).
Proof.
  intros Hplain Hnames.
  assert (Hparse : parseAttributes (attributesText attributes)
                   = list_to_map (rev attributes)).
  { unfold parseAttributes, attributesText.
    transitivity (fold_left (fun m kv => <[fst kv := snd kv]> m) attributes
                    (∅ : UserAttributes)).
    - destruct attributes as [|kv attributes]; [reflexivity|].
      cbn [map]. rewrite split_concat.
      + apply (fold_parseLine_attributeLine (kv :: attributes) ∅ Hplain
                 Hnames).
      + apply List.Forall_forall. intros line Hin.
        apply (in_map_iff attributeLine (kv :: attributes)) in Hin
          as (kv' & <- & Hin).
        apply attributeLine_without_lineFeed.
        rewrite List.Forall_forall in Hplain. now apply Hplain.
    - rewrite <- fold_left_rev_right.
      generalize (rev attributes). intros l.
      induction l as [|kv l IH]; simpl; [reflexivity|now rewrite IH]. }
  split; [exact Hparse|].
  intros Hnodup key value Hin. rewrite Hparse.
  apply elem_of_list_to_map_1';
    [|apply list_elem_of_In; now rewrite <- in_rev].
  intros value' Hin'. apply list_elem_of_In in Hin'. rewrite <- in_rev in Hin'.
  clear Hparse Hplain Hnames.
  induction attributes as [|[k v] attributes IH]; [contradiction|].
  cbn [map fst] in Hnodup. apply NoDup_cons in Hnodup as [Hfresh Hnodup].
  assert (Hkeys : forall x, In (k, x) attributes -> False).
  { intros x Hx. apply Hfresh, list_elem_of_In.
    apply (in_map fst) in Hx. exact Hx. }
  destruct Hin as [[= -> ->]|Hin], Hin' as [[= ->]|Hin'];
    try reflexivity; try solve [exfalso; eauto].
  now apply IH.
Qed.

Lemma last_line_sets_attribute_witness :
  parseAttributes
    ("region=US" +:+ String lineFeed (" region " +:+ String equalsSign " EU"))
  = (if String.eqb (trim " region ") "__proto__"
     then parseAttributes "region=US"
     else <[trim " region " := trim " EU"]> (parseAttributes "region=US")).
Proof.
  apply (last_line_sets_attribute "region=US" " region " " EU");
    vm_compute; intuition discriminate.
Defined.

Lemma line_without_equals_is_ignored_witness :
  parseAttributes ("region=US" +:+ String lineFeed "plan pro")
  = parseAttributes "region=US".
Proof.
  apply (line_without_equals_is_ignored "region=US" "plan pro");
    vm_compute; intuition discriminate.
Defined.

Lemma parseAttributes_reads_attributesText_witness :
  parseAttributes (attributesText [("region", "US"); ("plan", "pro")])
  = list_to_map (rev [("region", "US"); ("plan", "pro")])
  /\ (NoDup (map fst [("region", "US"); ("plan", "pro")]) ->
      forall key value,
        In (key, value) [("region", "US"); ("plan", "pro")] ->
        parseAttributes (attributesText [("region", "US"); ("plan", "pro")])
          !! key = Some value).
Proof.
  apply (parseAttributes_reads_attributesText
           [("region", "US"); ("plan", "pro")]).
  - repeat constructor; try discriminate; vm_compute; intuition discriminate.
  - repeat constructor; discriminate.
Defined.

(** ** Evaluating from the form *)

Section MoreForm.

Variable murmurhash_v3 : string -> Z.
Variable otherDigits : Q -> string.
Variable typeErrorMessage : FeatureManager.t -> string -> string.

(** X20.  [handleEvaluate] leaves the form with a result or with an error
    message, never with both and never with neither, and changes nothing
    else of the state: what the form showed before is gone. *)
Theorem handleEvaluate_result_or_error (state : App.t) :
  let state' := handleEvaluate murmurhash_v3 otherDigits typeErrorMessage state in
  ((exists result,
      App.featureValue state' = Some result /\ App.error state' = None)
   \/ (exists message,
         App.error state' = Some message /\ App.featureValue state' = None))
  /\ App.userId state' = App.userId state
  /\ App.platform state' = App.platform state
  /\ App.platformData state' = App.platformData state
  /\ App.featureId state' = App.featureId state
  /\ App.parsedUserAttributes state' = App.parsedUserAttributes state.
Proof.
  unfold handleEvaluate. destruct state as [u p d f a v e]; simpl.
  destruct p as [|c p]; simpl; [repeat split; eauto|].
  destruct f as [|c' f]; simpl; [repeat split; eauto|].
  destruct d as [config|]; simpl; [|repeat split; eauto].
  destruct (getFeatureValue murmurhash_v3 otherDigits _ _) as [result|err];
    simpl;
    repeat split; eauto.
Qed.

(** X21.  With a platform loaded whose combos have the declared type and
    whose values can be printed, and a feature id chosen from the list of
    its feature ids, [handleEvaluate] shows the result of the engine for
    the user of the form and no error; the id must not be empty. *)
Theorem handleEvaluate_listed_feature (state : App.t)
    (config : FeatureConfig.t) :
  App.platform state <> EmptyString ->
  App.featureId state <> EmptyString ->
  App.platformData state = Some config ->
  In (App.featureId state) (featuresList config) ->
  (forall group feature,
     In group (FeatureConfig.groups config) ->
     In feature (FeatureGroup.features group) ->
     Forall declared (Feature.segments feature)) ->
  (forall group feature,
     In group (FeatureConfig.groups config) ->
     In feature (FeatureGroup.features group) ->
     Forall printable (configuredValues feature)) ->
  exists result,
    getFeatureValue murmurhash_v3 otherDigits
      (constructor config (App.userId state) (App.parsedUserAttributes state))
      (App.featureId state) = Normal result
    /\ App.featureValue (handleEvaluate murmurhash_v3 otherDigits typeErrorMessage state)
       = Some result
    /\ App.error (handleEvaluate murmurhash_v3 otherDigits typeErrorMessage state) = None.
Proof.
  intros Hplatform Hid Hdata Hlisted Hdeclared Hprintable.
  set (this := constructor config (App.userId state)
                 (App.parsedUserAttributes state)).
  destruct (FeatureManager.featureMap this !! App.featureId state)
    as [[feature groupId]|] eqn:Hlookup.
  - destruct (featureMap_lookup_in_config _ _ _ _ _ _ Hlookup)
      as (_ & group & Hgroup & _ & Hfeature).
    pose proof (Hdeclared group feature Hgroup Hfeature) as Hsegments.
    pose proof (Hprintable group feature Hgroup Hfeature) as Hvalues.
    unfold configuredValues in Hvalues.
    apply Forall_app in Hvalues as [Hdefault Hvalues].
    apply Forall_cons_iff in Hdefault as [Hvalue Hrollout].
    apply printable_secondaryValues in Hrollout.
    unfold getFeatureValue, evaluateFeature. rewrite Hlookup.
    unfold bind at 1.
    destruct (evaluateSegments_declared murmurhash_v3 otherDigits this groupId
                (Feature.segments feature) [] Hsegments Hvalues)
      as (returned & t & Hreturned).
    assert (Hresult : exists result,
              getFeatureValue murmurhash_v3 otherDigits this
                (App.featureId state)
              = Normal result).
    { unfold getFeatureValue, evaluateFeature. rewrite Hlookup.
      unfold bind at 1. rewrite Hreturned.
      destruct returned as [finalValue|]; [unfold ret; eauto|].
      destruct (evaluateDefault_outcome murmurhash_v3 otherDigits this groupId
                  feature t) as [u ->].
      rewrite (valueOutcome_printable otherDigits _ _ _ Hvalue Hrollout).
      eauto. }
    destruct Hresult as [result Hresult]. exists result.
    split.
    + unfold getFeatureValue, evaluateFeature in Hresult.
      rewrite Hlookup in Hresult. exact Hresult.
    + unfold handleEvaluate.
      destruct state as [u p d f a v e]; simpl in *. subst d.
      destruct p; [contradiction|]. destruct f; [contradiction|].
      fold this. rewrite Hresult. simpl. auto.
  - exfalso. apply featureMap_None in Hlookup.
    rewrite featuresList_entries in Hlisted.
    apply in_map_iff in Hlisted as (entry & Heq & Hin).
    rewrite List.Forall_forall in Hlookup. now apply (Hlookup entry).
Qed.

End MoreForm.

Lemma handleEvaluate_listed_feature_witness :
  exists result,
    getFeatureValue murmur3 noOtherDigits
      (constructor exampleConfig "alice" (parseAttributes "plan=pro")) "f1"
    = Normal result
    /\ App.featureValue
         (handleEvaluate murmur3 noOtherDigits (fun _ _ => "TypeError")
            {| App.userId := "alice"; App.platform := "web";
               App.platformData := Some exampleConfig;
               App.featureId := "f1";
               App.parsedUserAttributes := parseAttributes "plan=pro";
               App.featureValue := None;
               App.error := Some "Please select a feature." |})
       = Some result
    /\ App.error
         (handleEvaluate murmur3 noOtherDigits (fun _ _ => "TypeError")
            {| App.userId := "alice"; App.platform := "web";
               App.platformData := Some exampleConfig;
               App.featureId := "f1";
               App.parsedUserAttributes := parseAttributes "plan=pro";
               App.featureValue := None;
               App.error := Some "Please select a feature." |})
       = None.
Proof.
  apply (handleEvaluate_listed_feature murmur3 noOtherDigits
           (fun _ _ => "TypeError")
           {| App.userId := "alice"; App.platform := "web";
              App.platformData := Some exampleConfig;
              App.featureId := "f1";
              App.parsedUserAttributes := parseAttributes "plan=pro";
              App.featureValue := None;
              App.error := Some "Please select a feature." |}
           exampleConfig).
  - discriminate.
  - discriminate.
  - reflexivity.
  - now left.
  - intros group feature [<-|[]] [<-|[<-|[]]]; repeat constructor.
    exists [("plan", ["pro"])]. reflexivity.
  - intros group feature [<-|[]] [<-|[<-|[]]]; repeat constructor;
      first [apply printable_JBool | apply printable_JStr].
Defined.
